(** * Pattern conversion and lvalue validation (src/parser/lval.js)

    A shallow embedding of the [LValParser] class: [toAssignable],
    [toAssignableList], [toReferencedList], [shouldAllowYieldIdentifier],
    [parseBindingIdentifier] and [checkLVal], followed by the properties
    that are established about them.

    The JavaScript code rewrites nodes in place and aborts by throwing.
    Here an operation takes the node (or the list, or the clash map) it
    works on and gives back its state after the call together with a
    completion: [None] when the call returned, [Some e] when it threw [e].
    The state that comes with [Some e] is the state at the moment of the
    throw, so what was already rewritten can be observed. *)

From Stdlib Require Import ZArith String List Bool Lia.
From stdpp Require Import base option list strings gmap.

Open Scope Z_scope.

(** ** Nodes *)

(** Modelled from the spec: the node type is declared outside this file.
    A node is a JavaScript object: a discriminant [type], the source
    span [start]/[end_], and the fields this file reads.  A field that
    the object does not have is [None]; [delete node.operator] makes
    [operator] [None].  [properties] is an array of nodes, [elements] an
    array whose entries may be holes ([None]). *)
#[warnings="-register-all"]
Inductive Node : Type := mkNode {
  type : string;
  start : Z;
  end_ : Z;
  name : string;
  kind : option string;
  operator : option string;
  key : option Node;
  value : option Node;
  argument : option Node;
  left : option Node;
  right : option Node;
  properties : option (list Node);
  elements : option (list (option Node))
}.

(** Field assignments. *)

Definition set_type (n : Node) (t : string) : Node :=
  mkNode t (start n) (end_ n) (name n) (kind n) (operator n) (key n)
         (value n) (argument n) (left n) (right n) (properties n) (elements n).

Definition delete_operator (n : Node) : Node :=
  mkNode (type n) (start n) (end_ n) (name n) (kind n) None (key n)
         (value n) (argument n) (left n) (right n) (properties n) (elements n).

Definition set_value (n : Node) (v : option Node) : Node :=
  mkNode (type n) (start n) (end_ n) (name n) (kind n) (operator n) (key n)
         v (argument n) (left n) (right n) (properties n) (elements n).

Definition set_argument (n : Node) (a : option Node) : Node :=
  mkNode (type n) (start n) (end_ n) (name n) (kind n) (operator n) (key n)
         (value n) a (left n) (right n) (properties n) (elements n).

Definition set_properties (n : Node) (ps : option (list Node)) : Node :=
  mkNode (type n) (start n) (end_ n) (name n) (kind n) (operator n) (key n)
         (value n) (argument n) (left n) (right n) ps (elements n).

Definition set_elements (n : Node) (es : option (list (option Node))) : Node :=
  mkNode (type n) (start n) (end_ n) (name n) (kind n) (operator n) (key n)
         (value n) (argument n) (left n) (right n) (properties n) es.

(** ** Errors

    What a call can throw: the error of [raise], the unexpected-token
    error of [unexpected], and the [TypeError] of JavaScript itself, when
    a field of an absent object is read or an absent array is iterated. *)

Inductive error : Type :=
| Raise (pos : Z) (message : string)
| Unexpected (pos : Z)
| TypeError.

(** How a call ends: [None] when it returns, [Some e] when it throws. *)
Definition completion : Type := option error.

(** Modelled from the spec: [raise(position, message)] belongs to the
    error channel of the surrounding parser, outside this file; it is
    fatal for the current parse and carries the position and the
    message. *)
Definition raise (pos : Z) (message : string) : completion :=
  Some (Raise pos message).

(** Modelled from the spec: [unexpected(position)] belongs to the same
    error channel; it is fatal for the current parse and reports an
    unexpected token at the position. *)
Definition unexpected (pos : Z) : completion :=
  Some (Unexpected pos).

(** [x === "s"] where [x] may be absent. *)
Definition option_eqb (x : option string) (s : string) : bool :=
  match x with Some y => String.eqb y s | None => false end.

(** [node.type === "s"]. *)
Definition is_type (n : Node) (t : string) : bool := String.eqb (type n) t.

(** The cases of the first [switch] arm of [toAssignable]. *)
Definition already_pattern (n : Node) : bool :=
  is_type n "Identifier" || is_type n "PrivateName" || is_type n "ObjectPattern"
  || is_type n "ArrayPattern" || is_type n "AssignmentPattern".

(** The message of the [default] arm of [toAssignable]. *)
Definition invalid_lhs_message (contextDescription : string) : string :=
  "Invalid left-hand side" +:+
  (if String.eqb contextDescription "" then "expression"
   else " in " +:+ contextDescription).

(** ** toAssignableList, over the conversion of one node

    [toAssignableList] and [toAssignable] call each other.  The pieces of
    the list function are written over the node conversion [conv] they
    call, so that [toAssignable] can be a structural fixpoint. *)

Section ListOver.

Variable conv : Node -> Node * completion.

(** The block under [if (end)], for [last = exprList[end - 1]]: the new
    state of that entry, the completion, and whether [--end] ran. *)
Definition convert_last_elt (last : option Node)
  : option Node * completion * bool :=
  match last with
  | None => (last, None, false)
  | Some l =>
    if is_type l "RestElement" then (last, None, true)
    else if is_type l "SpreadElement" then
      let l1 := set_type l "RestElement" in
      match argument l1 with
      | None => (Some l1, Some TypeError, false)
      | Some arg =>
        let '(arg', c) := conv arg in
        let l2 := set_argument l1 (Some arg') in
        match c with
        | Some e => (Some l2, Some e, false)
        | None =>
          if negb (is_type arg' "Identifier")
             && negb (is_type arg' "MemberExpression")
             && negb (is_type arg' "ArrayPattern")
          then (Some l2, unexpected (start arg'), false)
          else (Some l2, None, true)
        end
      end
    else (last, None, false)
  end.

(** The [for] loop over the entries [i .. end - 1] of [exprList], given
    as the entries from [i] on and [todo = end - i]. *)
Fixpoint convert_loop (exprList : list (option Node)) (todo : nat)
  : list (option Node) * completion :=
  match todo, exprList with
  | O, _ => (exprList, None)
  | S _, [] => ([], None)
  | S todo', None :: rest =>
    let '(rest', c) := convert_loop rest todo' in (None :: rest', c)
  | S todo', Some elt :: rest =>
    if is_type elt "SpreadElement" then
      (exprList,
       raise (start elt)
         "The rest element has to be the last element when destructuring")
    else
      let '(elt', c) := conv elt in
      match c with
      | Some e => (Some elt' :: rest, Some e)
      | None =>
        let '(rest', c') := convert_loop rest todo' in
        (Some elt' :: rest', c')
      end
  end.

(** [toAssignableList] as the source has it: the last entry first, then
    the loop over the list as the first step left it. *)
Definition toAssignableList_over (exprList : list (option Node))
  : list (option Node) * completion :=
  let end' := length exprList in
  let '(exprList1, c, end1) :=
    match end' with
    | O => (exprList, None, end')
    | S _ =>
      let last := default None (exprList !! (end' - 1)%nat) in
      let '(last', c, dec) := convert_last_elt last in
      (<[(end' - 1)%nat := last']> exprList, c,
       if dec then (end' - 1)%nat else end')
    end in
  match c with
  | Some e => (exprList1, Some e)
  | None => convert_loop exprList1 end1
  end.

(** The same computation by recursion on the list: [convert_last] walks
    to the last entry and treats it, and the loop runs over the entries
    before it as they were given (the first step changes only the last
    entry).  [toAssignable] is defined through this form. *)
Fixpoint convert_last (exprList : list (option Node))
  : list (option Node) * completion * bool :=
  match exprList with
  | [] => ([], None, false)
  | [last] =>
    let '(last', c, dec) := convert_last_elt last in ([last'], c, dec)
  | elt :: rest =>
    let '(rest', c, dec) := convert_last rest in (elt :: rest', c, dec)
  end.

Definition convert_list (exprList : list (option Node))
  : list (option Node) * completion :=
  let '(exprList1, c, dec) := convert_last exprList in
  match c with
  | Some e => (exprList1, Some e)
  | None =>
    if dec then
      let '(exprList2, c') :=
        convert_loop exprList (length exprList - 1)%nat in
      (take (length exprList - 1)%nat exprList2
         ++ drop (length exprList - 1)%nat exprList1, c')
    else convert_loop exprList (length exprList)
  end.

(** The loop over [node.properties] of an ObjectExpression. *)
Fixpoint convert_properties (props : list Node)
  : list Node * completion :=
  match props with
  | [] => ([], None)
  | prop :: rest =>
    if is_type prop "ObjectMethod" then
      match key prop with
      | None => (props, Some TypeError)
      | Some k =>
        if option_eqb (kind prop) "get" || option_eqb (kind prop) "set"
        then (props, raise (start k)
                       "Object pattern can't contain getter or setter")
        else (props, raise (start k)
                       "Object pattern can't contain methods")
      end
    else
      let '(prop', c) := conv prop in
      match c with
      | Some e => (prop' :: rest, Some e)
      | None =>
        let '(rest', c') := convert_properties rest in (prop' :: rest', c')
      end
  end.

End ListOver.

(** ** toAssignable

    Convert existing expression atom to assignable pattern if possible.
    [toAssignable_node] is the [switch] under [if (node)], on a node that
    is there; [toAssignable] below adds the absent case.  The list of an
    ArrayExpression goes through [convert_list], which
    [convert_list_eq] shows to be [toAssignableList]; the equations of
    the function as the source reads are [toAssignable_node_unfold]. *)

Fixpoint toAssignable_node (node : Node) (isBinding : bool)
    (contextDescription : string) {struct node} : Node * completion :=
  if already_pattern node then (node, None)
  else if is_type node "ObjectExpression" then
    let node1 := set_type node "ObjectPattern" in
    match properties node with
    | None => (node1, Some TypeError)
    | Some props =>
      let '(props', c) :=
        convert_properties
          (fun prop =>
             toAssignable_node prop isBinding "object destructuring pattern")
          props in
      (set_properties node1 (Some props'), c)
    end
  else if is_type node "ObjectProperty" then
    match value node with
    | None => (node, None)
    | Some v =>
      let '(v', c) := toAssignable_node v isBinding contextDescription in
      (set_value node (Some v'), c)
    end
  else if is_type node "SpreadElement" then
    let node1 := set_type node "RestElement" in
    match argument node with
    | None => (node1, None)
    | Some arg =>
      let '(arg', c) := toAssignable_node arg isBinding contextDescription in
      (set_argument node1 (Some arg'), c)
    end
  else if is_type node "ArrayExpression" then
    let node1 := set_type node "ArrayPattern" in
    match elements node with
    | None => (node1, Some TypeError)
    | Some exprList =>
      let '(exprList', c) :=
        convert_list
          (fun n => toAssignable_node n isBinding contextDescription)
          exprList in
      (set_elements node1 (Some exprList'), c)
    end
  else if is_type node "AssignmentExpression" then
    if option_eqb (operator node) "=" then
      (delete_operator (set_type node "AssignmentPattern"), None)
    else
      match left node with
      | None => (node, Some TypeError)
      | Some l =>
        (node, raise (end_ l)
                 "Only '=' operator can be used for specifying default value.")
      end
  else if is_type node "MemberExpression" && negb isBinding then (node, None)
  else (node, raise (start node) (invalid_lhs_message contextDescription)).

(** [toAssignable(node, isBinding, contextDescription)]; an absent [node]
    is given back as it is. *)
Definition toAssignable (node : option Node) (isBinding : bool)
    (contextDescription : string) : option Node * completion :=
  match node with
  | None => (None, None)
  | Some n =>
    let '(n', c) := toAssignable_node n isBinding contextDescription in
    (Some n', c)
  end.

(** [toAssignableList(exprList, isBinding, contextDescription)]. *)
Definition toAssignableList (exprList : list (option Node))
    (isBinding : bool) (contextDescription : string)
  : list (option Node) * completion :=
  toAssignableList_over
    (fun n => toAssignable_node n isBinding contextDescription) exprList.

(** [toReferencedList(exprList)]. *)
Definition toReferencedList (exprList : list (option Node))
  : list (option Node) := exprList.

(** ** The parser state and parseBindingIdentifier *)

Module tt.
(** Modelled from the spec: the token kinds of the tokenizer ([tt] in
    the source), declared outside this file; the kinds this file names,
    and [other] for the rest. *)
Inductive TokenType : Type :=
| _yield | name | bracketL | bracketR | braceL | braceR
| comma | ellipsis | at_ | eq | other (label : string).

#[global] Instance TokenType_eq_dec : EqDecision TokenType.
Proof. solve_decision. Defined.
End tt.

Module State.
(** Modelled from the spec: the parser state, declared outside this
    file; the kind of the current token and the two flags that
    [shouldAllowYieldIdentifier] reads. *)
Record State : Type := mkState {
  type : tt.TokenType;
  strict : bool;
  inGenerator : bool
}.
End State.

(** Modelled from the spec: [match(kind)] of the token cursor, outside
    this file: whether the current token has the given kind. *)
Definition match_ (st : State.State) (t : tt.TokenType) : bool :=
  bool_decide (State.type st = t).

Definition shouldAllowYieldIdentifier (st : State.State) : bool :=
  match_ st tt._yield && negb (State.strict st) && negb (State.inGenerator st).

Section BindingIdentifier.

(** The identifier parser of expression.js, with its [liberal] flag. *)
Context {Result : Type}.
Variable parseIdentifier : bool -> State.State -> Result.

Definition parseBindingIdentifier (st : State.State) : Result :=
  parseIdentifier (shouldAllowYieldIdentifier st) st.

End BindingIdentifier.

(** ** checkLVal

    Verify that a node is an lval, something that can be assigned to. *)

(** The clash map is a JavaScript object used as a dictionary from keys
    to flags.  [own] holds its own properties.  [inherited] lists the
    keys that its prototype chain answers, each with a value that counts
    as true, as the properties of [Object.prototype] all do: an object
    made by [Object.create(null)] inherits nothing, an ordinary object
    [{}] inherits the keys of [Object.prototype]. *)
Record ClashMap : Type := mkClashMap {
  own : gmap string bool;
  inherited : list string
}.

(** [checkClashes[key]], read as a condition: the flag of the object's
    own property when it has one, and otherwise whether the key is
    inherited. *)
Definition marked (checkClashes : ClashMap) (k : string) : bool :=
  match own checkClashes !! k with
  | Some b => b
  | None => existsb (String.eqb k) (inherited checkClashes)
  end.

(** [checkClashes[key] = true].  The code assigns only after the
    condition above was false, that is to a key that is an own property
    or is not inherited; the assignment then writes an own property. *)
Definition mark (checkClashes : ClashMap) (k : string) : ClashMap :=
  mkClashMap (<[k := true]> (own checkClashes)) (inherited checkClashes).

(** [Object.create(null)]: no property, nothing inherited. *)
Definition null_prototype_map : ClashMap := mkClashMap ∅ [].

(** The keys of the properties of [Object.prototype]. *)
Definition Object_prototype_keys : list string :=
  ["constructor"; "__defineGetter__"; "__defineSetter__"; "hasOwnProperty";
   "__lookupGetter__"; "__lookupSetter__"; "isPrototypeOf";
   "propertyIsEnumerable"; "toString"; "valueOf"; "__proto__";
   "toLocaleString"].

(** [{}]: no property of its own, the keys of [Object.prototype]
    inherited. *)
Definition plain_object_map : ClashMap := mkClashMap ∅ Object_prototype_keys.

(** The message of the [default] arm of [checkLVal]. *)
Definition invalid_lval_message (isBinding : bool)
    (contextDescription : string) : string :=
  (if isBinding then "Binding invalid" else "Invalid") +:+
  " left-hand side" +:+
  (if String.eqb contextDescription "" then "expression"
   else " in " +:+ contextDescription).

Section CheckOver.

(** One recursive call of [checkLVal], at fixed [isBinding] and
    description, on a target that may be absent. *)
Variable chk : Node -> option ClashMap
               -> option ClashMap * completion.

(** [this.checkLVal(x, ...)] where [x] was read from a field: reading
    [x.type] of an absent [x] throws. *)
Definition check_target (x : option Node)
    (checkClashes : option ClashMap)
  : option ClashMap * completion :=
  match x with
  | None => (checkClashes, Some TypeError)
  | Some e => chk e checkClashes
  end.

(** The loop over [expr.properties] of an ObjectPattern. *)
Fixpoint check_properties (props : list Node)
    (checkClashes : option ClashMap)
  : option ClashMap * completion :=
  match props with
  | [] => (checkClashes, None)
  | prop :: rest =>
    let '(m, c) :=
      if is_type prop "ObjectProperty"
      then check_target (value prop) checkClashes
      else chk prop checkClashes in
    match c with
    | Some e => (m, Some e)
    | None => check_properties rest m
    end
  end.

(** The loop over [expr.elements] of an ArrayPattern. *)
Fixpoint check_elements (elems : list (option Node))
    (checkClashes : option ClashMap)
  : option ClashMap * completion :=
  match elems with
  | [] => (checkClashes, None)
  | None :: rest => check_elements rest checkClashes
  | Some elem :: rest =>
    let '(m, c) := chk elem checkClashes in
    match c with
    | Some e => (m, Some e)
    | None => check_elements rest m
    end
  end.

End CheckOver.

Section CheckLVal.

(** The reserved-word check of expression.js:
    [checkReservedWord(word, startLoc, checkKeywords, isBinding)]. *)
Variable checkReservedWord : string -> Z -> bool -> bool -> completion.

Fixpoint checkLVal (expr : Node) (isBinding : bool)
    (checkClashes : option ClashMap)
    (contextDescription : string) {struct expr}
  : option ClashMap * completion :=
  if is_type expr "PrivateName" || is_type expr "Identifier" then
    match checkReservedWord (name expr) (start expr) false true with
    | Some e => (checkClashes, Some e)
    | None =>
      match checkClashes with
      | Some m =>
        let key := "_" +:+ name expr in
        if marked m key then
          (checkClashes,
           raise (start expr) "Argument name clash in strict mode")
        else (Some (mark m key), None)
      | None => (checkClashes, None)
      end
    end
  else if is_type expr "MemberExpression" then
    if isBinding then
      (checkClashes,
       raise (start expr)
         ((if isBinding then "Binding" else "Assigning to")
            +:+ " member expression"))
    else (checkClashes, None)
  else if is_type expr "ObjectPattern" then
    match properties expr with
    | None => (checkClashes, Some TypeError)
    | Some props =>
      check_properties
        (fun e m => checkLVal e isBinding m "object destructuring pattern")
        props checkClashes
    end
  else if is_type expr "ArrayPattern" then
    match elements expr with
    | None => (checkClashes, Some TypeError)
    | Some elems =>
      check_elements
        (fun e m => checkLVal e isBinding m "array destructuring pattern")
        elems checkClashes
    end
  else if is_type expr "AssignmentPattern" then
    match left expr with
    | None => (checkClashes, Some TypeError)
    | Some l => checkLVal l isBinding checkClashes "assignment pattern"
    end
  else if is_type expr "RestElement" then
    match argument expr with
    | None => (checkClashes, Some TypeError)
    | Some a => checkLVal a isBinding checkClashes "rest element"
    end
  else
    (checkClashes,
     raise (start expr) (invalid_lval_message isBinding contextDescription)).

End CheckLVal.

(** ** The binding parser

    [parseSpread], [parseRest], [parseBindingAtom], [parseBindingList],
    [parseAssignableListItemTypes] and [parseMaybeDefault] work on the
    token cursor and call the parsers of other files.  A parser function
    takes the parser [P] (cursor and input) and returns a value with the
    parser after it, or throws.  The loops and the recursion of the
    source end when the input does; here they count down a fuel, and a
    call that uses it up answers [OutOfFuel]. *)

Inductive outcome (P A : Type) : Type :=
| Returned (a : A) (p : P)
| Threw (e : error)
| OutOfFuel.

Arguments Returned {P A} a p.
Arguments Threw {P A} e.
Arguments OutOfFuel {P A}.

Definition parser (P A : Type) : Type := P -> outcome P A.

Definition ret {P A : Type} (a : A) : parser P A := fun p => Returned a p.

Definition bind {P A B : Type} (m : parser P A) (k : A -> parser P B)
  : parser P B :=
  fun p =>
    match m p with
    | Returned a p' => k a p'
    | Threw e => Threw e
    | OutOfFuel => OutOfFuel
    end.

(** Reading the parser without changing it. *)
Definition gets {P A : Type} (f : P -> A) : parser P A :=
  fun p => Returned (f p) p.

Declare Scope parser_scope.
Delimit Scope parser_scope with parser.

Notation "x <- m ;; k" := (bind m (fun x => k))
  (at level 100, m at next level, right associativity) : parser_scope.

Definition set_left (n : Node) (l : option Node) : Node :=
  mkNode (type n) (start n) (end_ n) (name n) (kind n) (operator n) (key n)
         (value n) (argument n) l (right n) (properties n) (elements n).

Definition set_right (n : Node) (r : option Node) : Node :=
  mkNode (type n) (start n) (end_ n) (name n) (kind n) (operator n) (key n)
         (value n) (argument n) (left n) r (properties n) (elements n).

(** [startPos || this.state.start]: an absent position and the position
    0 both give way to the start of the current token. *)
Definition or_start (startPos : option Z) (stateStart : Z) : Z :=
  match startPos with
  | Some pos => if Z.eqb pos 0 then stateStart else pos
  | None => stateStart
  end.

(** [parseAssignableListItemTypes(param)]. *)
Definition parseAssignableListItemTypes (param : Node) : Node := param.

Section BindingParser.

Open Scope parser_scope.

(** The parser and what this file uses of it, all declared in other
    files: the state ([this.state], [this.state.start]), the token
    cursor ([next], [eat], [expect], [expectLenient], and [unexpected()]
    at the current token), the node factory ([startNode], [startNodeAt],
    [finishNode]), the parsers of expression.js and statement.js, and
    the assignment to the [decorators] field of a node. *)
Context {P Pos : Type}.
Variable state : P -> State.State.
Variable state_start : P -> Z.
Variable next : parser P unit.
Variable eat : tt.TokenType -> parser P bool.
Variable expect : tt.TokenType -> parser P unit.
Variable expectLenient : tt.TokenType -> parser P unit.
Variable unexpected_here : P -> error.
Variable startNode : P -> Node.
Variable startNodeAt : Z -> P -> Node.
Variable finishNode : Node -> string -> parser P Node.
Variable parseIdentifier : bool -> parser P Node.
Variable parseMaybeAssign : option bool -> option Pos -> parser P Node.
Variable parseObj : bool -> parser P Node.
Variable parseDecorator : parser P Node.
Variable set_decorators : Node -> list Node -> Node.

(** Parses spread element. *)
Definition parseSpread (refShorthandDefaultPos : option Pos)
  : parser P Node :=
  node <- gets startNode ;;
  _ <- next ;;
  arg <- parseMaybeAssign (Some false) refShorthandDefaultPos ;;
  finishNode (set_argument node (Some arg)) "SpreadElement".

(** [while (this.match(tt.at)) decorators.push(this.parseDecorator())]. *)
Fixpoint parseDecorators (fuel : nat) (decorators : list Node)
  : parser P (list Node) :=
  match fuel with
  | O => fun _ => OutOfFuel
  | S fuel' =>
    fun p =>
      if match_ (state p) tt.at_ then
        (d <- parseDecorator ;;
         parseDecorators fuel' (decorators ++ [d])) p
      else Returned decorators p
  end.

(** [parseBindingList_from] is the [while] loop of [parseBindingList],
    entered with the elements collected so far and the flag [first]. *)
Fixpoint parseBindingAtom (fuel : nat) : parser P Node :=
  match fuel with
  | O => fun _ => OutOfFuel
  | S fuel' =>
    fun p =>
      match State.type (state p) with
      | tt._yield | tt.name =>
        parseBindingIdentifier (fun liberal _ => parseIdentifier liberal p)
                               (state p)
      | tt.bracketL =>
        (node <- gets startNode ;;
         _ <- next ;;
         elts <- parseBindingList_from fuel' tt.bracketR true [] true ;;
         finishNode (set_elements node (Some elts)) "ArrayPattern") p
      | tt.braceL => parseObj true p
      | _ => Threw (unexpected_here p)
      end
  end

with parseRest (fuel : nat) : parser P Node :=
  match fuel with
  | O => fun _ => OutOfFuel
  | S fuel' =>
    node <- gets startNode ;;
    _ <- next ;;
    arg <- parseBindingAtom fuel' ;;
    finishNode (set_argument node (Some arg)) "RestElement"
  end

with parseMaybeDefault (fuel : nat) (startPos : option Z)
    (left : option Node) : parser P Node :=
  match fuel with
  | O => fun _ => OutOfFuel
  | S fuel' =>
    startPos' <- gets (fun p => or_start startPos (state_start p)) ;;
    left' <- match left with
             | Some l => ret l
             | None => parseBindingAtom fuel'
             end ;;
    isDefault <- eat tt.eq ;;
    if negb isDefault then ret left'
    else
      node <- gets (startNodeAt startPos') ;;
      r <- parseMaybeAssign None None ;;
      finishNode (set_right (set_left node (Some left')) (Some r))
                 "AssignmentPattern"
  end

with parseBindingList_from (fuel : nat) (close : tt.TokenType)
    (allowEmpty : bool) (elts : list (option Node)) (first : bool)
  : parser P (list (option Node)) :=
  match fuel with
  | O => fun _ => OutOfFuel
  | S fuel' =>
    closed <- eat close ;;
    if closed then ret elts
    else
      _ <- (if first then ret tt else expectLenient tt.comma) ;;
      atComma <- gets (fun p => match_ (state p) tt.comma) ;;
      if allowEmpty && atComma then
        parseBindingList_from fuel' close allowEmpty (elts ++ [None]) false
      else
        closed' <- eat close ;;
        if closed' then ret elts
        else
          atEllipsis <- gets (fun p => match_ (state p) tt.ellipsis) ;;
          if atEllipsis then
            r <- parseRest fuel' ;;
            _ <- expect close ;;
            ret (elts ++ [Some (parseAssignableListItemTypes r)])
          else
            decorators <- parseDecorators fuel' [] ;;
            left <- parseMaybeDefault fuel' None None ;;
            let left' := match decorators with
                         | [] => left
                         | _ :: _ => set_decorators left decorators
                         end in
            let _ := parseAssignableListItemTypes left' in
            item <- parseMaybeDefault fuel' (Some (start left')) (Some left') ;;
            parseBindingList_from fuel' close allowEmpty
                                  (elts ++ [Some item]) false
  end.

Definition parseBindingList (fuel : nat) (close : tt.TokenType)
    (allowEmpty : bool) : parser P (list (option Node)) :=
  parseBindingList_from fuel close allowEmpty [] true.

End BindingParser.

(** ** Nodes as the parser builds them

    Constructors for the node variants of this file, with the fields the
    parser gives each of them. *)

Definition node_of (ty : string) (st en : Z) : Node :=
  mkNode ty st en "" None None None None None None None None None.

Definition Identifier (st en : Z) (nm : string) : Node :=
  mkNode "Identifier" st en nm None None None None None None None None None.

Definition NumericLiteral (st en : Z) : Node := node_of "NumericLiteral" st en.

Definition MemberExpression (st en : Z) : Node :=
  node_of "MemberExpression" st en.

Definition SpreadElement (st en : Z) (arg : Node) : Node :=
  mkNode "SpreadElement" st en "" None None None None (Some arg) None None
         None None.

Definition RestElement (st en : Z) (arg : Node) : Node :=
  mkNode "RestElement" st en "" None None None None (Some arg) None None
         None None.

Definition ObjectProperty (st en : Z) (k v : Node) : Node :=
  mkNode "ObjectProperty" st en "" None None (Some k) (Some v) None None None
         None None.

Definition ObjectMethod (st en : Z) (kd : string) (k : Node) : Node :=
  mkNode "ObjectMethod" st en "" (Some kd) None (Some k) None None None None
         None None.

Definition ObjectExpression (st en : Z) (props : list Node) : Node :=
  mkNode "ObjectExpression" st en "" None None None None None None None
         (Some props) None.

Definition ArrayExpression (st en : Z) (elts : list (option Node)) : Node :=
  mkNode "ArrayExpression" st en "" None None None None None None None
         None (Some elts).

Definition AssignmentExpression (st en : Z) (op : string) (l r : Node)
  : Node :=
  mkNode "AssignmentExpression" st en "" None (Some op) None None None
         (Some l) (Some r) None None.

(** ** A cursor over a list of tokens

    A small parser to run the binding parser on examples: the input is
    the list of the tokens left, each a kind with its text; nodes are
    built at position 0; an identifier is a [name] token, or [yield]
    when liberal; there are no object patterns and no decorators. *)

Definition token : Type := tt.TokenType * string.

Definition tokens_state (p : list token) : State.State :=
  State.mkState (match p with
                 | (k, _) :: _ => k
                 | [] => tt.other "eof"
                 end) false false.

Definition tokens_next : parser (list token) unit :=
  fun p => Returned tt (tl p).

Definition tokens_eat (k : tt.TokenType) : parser (list token) bool :=
  fun p => if match_ (tokens_state p) k then Returned true (tl p)
           else Returned false p.

Definition tokens_expect (k : tt.TokenType) : parser (list token) unit :=
  fun p => if match_ (tokens_state p) k then Returned tt (tl p)
           else Threw (Unexpected 0).

Definition tokens_expectLenient (k : tt.TokenType)
  : parser (list token) unit :=
  fun p => if match_ (tokens_state p) k then Returned tt (tl p)
           else Returned tt p.

Definition tokens_finishNode (n : Node) (ty : string)
  : parser (list token) Node :=
  ret (set_type n ty).

Definition tokens_parseIdentifier (liberal : bool)
  : parser (list token) Node :=
  fun p =>
    match p with
    | (tt.name, v) :: r => Returned (Identifier 0 0 v) r
    | (tt._yield, v) :: r =>
      if liberal then Returned (Identifier 0 0 v) r else Threw (Unexpected 0)
    | _ => Threw (Unexpected 0)
    end.

(** [parseBindingList] over this cursor. *)
Definition tokens_parseBindingList
  : nat -> tt.TokenType -> bool -> parser (list token) (list (option Node)) :=
  parseBindingList (Pos := unit)
    tokens_state (fun _ => 0) tokens_next tokens_eat tokens_expect
    tokens_expectLenient (fun _ => Unexpected 0)
    (fun _ => node_of "" 0 0) (fun pos _ => node_of "" pos 0)
    tokens_finishNode tokens_parseIdentifier
    (fun _ _ => tokens_parseIdentifier false)
    (fun _ _ => Threw (Unexpected 0)) (fun _ => Threw (Unexpected 0))
    (fun n _ => n).

(** ** Vocabulary of the statements *)

(** A property that is not a method and whose conversion, as a property
    of an object pattern, returned: [p'] is its state afterwards. *)
Definition property_converted (isBinding : bool) (p p' : Node) : Prop :=
  type p <> "ObjectMethod" /\
  toAssignable_node p isBinding "object destructuring pattern" = (p', None).

(** An entry of a list that the loop of [toAssignableList] went past:
    a hole stays a hole, a node that is not a SpreadElement was converted
    by [toAssignable] and that call returned. *)
Definition element_converted (isBinding : bool) (contextDescription : string)
    (x x' : option Node) : Prop :=
  (forall n, x = Some n -> type n <> "SpreadElement") /\
  toAssignable x isBinding contextDescription = (x', None).

(** The discriminants the argument of a converted last spread may have. *)
Definition rest_argument_allowed (arg : Node) : bool :=
  is_type arg "Identifier" || is_type arg "MemberExpression"
  || is_type arg "ArrayPattern".

(** The message of the misplaced-rest error. *)
Definition rest_not_last : string :=
  "The rest element has to be the last element when destructuring".

(** The pattern family of discriminants. *)
Definition pattern_family (t : string) : bool :=
  String.eqb t "Identifier" || String.eqb t "PrivateName"
  || String.eqb t "ObjectPattern" || String.eqb t "ArrayPattern"
  || String.eqb t "AssignmentPattern" || String.eqb t "RestElement".

(** A discriminant of the pattern family, or MemberExpression when the
    conversion was not for a binding. *)
Definition pattern_or_member (isBinding : bool) (n : Node) : bool :=
  pattern_family (type n) || (is_type n "MemberExpression" && negb isBinding).

(** [P] holds of the node and of every node reachable from it through
    its fields. *)
Fixpoint every_node (P : Node -> bool) (n : Node) {struct n} : bool :=
  P n
  && match key n with Some x => every_node P x | None => true end
  && match value n with Some x => every_node P x | None => true end
  && match argument n with Some x => every_node P x | None => true end
  && match left n with Some x => every_node P x | None => true end
  && match right n with Some x => every_node P x | None => true end
  && match properties n with
     | Some ps => forallb (every_node P) ps
     | None => true
     end
  && match elements n with
     | Some es =>
       forallb (fun e => match e with
                         | Some x => every_node P x
                         | None => true
                         end) es
     | None => true
     end.

(** What the discriminant of a converted node can be: the pattern
    family, ObjectProperty (conversion keeps it), or MemberExpression
    when the conversion was not for a binding. *)
Definition converted_discriminant (isBinding : bool) (n : Node) : bool :=
  pattern_family (type n) || is_type n "ObjectProperty"
  || (is_type n "MemberExpression" && negb isBinding).

Fixpoint forall2b {A B : Type} (f : A -> B -> bool) (l : list A)
    (l' : list B) {struct l} : bool :=
  match l, l' with
  | [], [] => true
  | x :: r, x' :: r' => f x x' && forall2b f r r'
  | _, _ => false
  end.

(** [conversion_shape isBinding n n'], for a node [n] and its state [n']
    after conversion: [n'] has a converted discriminant, and so has, in
    turn, every node the conversion goes into from [n]: the properties
    of an ObjectExpression, the value of an ObjectProperty, the argument
    of a SpreadElement and the entries of an ArrayExpression.  Nothing is
    asked of the children of a node that was a pattern already, nor of
    those of an AssignmentExpression or a MemberExpression, nor of the
    key of a property. *)
Fixpoint conversion_shape (isBinding : bool) (n n' : Node) {struct n}
  : bool :=
  converted_discriminant isBinding n' &&
  if already_pattern n then true
  else if is_type n "ObjectExpression" then
    match properties n, properties n' with
    | Some ps, Some ps' => forall2b (conversion_shape isBinding) ps ps'
    | _, _ => false
    end
  else if is_type n "ObjectProperty" then
    match value n, value n' with
    | Some v, Some v' => conversion_shape isBinding v v'
    | None, None => true
    | _, _ => false
    end
  else if is_type n "SpreadElement" then
    match argument n, argument n' with
    | Some a, Some a' => conversion_shape isBinding a a'
    | None, None => true
    | _, _ => false
    end
  else if is_type n "ArrayExpression" then
    match elements n, elements n' with
    | Some es, Some es' =>
      forall2b (fun e e' =>
                  match e, e' with
                  | Some x, Some x' => conversion_shape isBinding x x'
                  | None, None => true
                  | _, _ => false
                  end) es es'
    | _, _ => false
    end
  else true.

(** ** Vocabulary of the further properties *)

(** The discriminants that have an arm of their own in the [switch] of
    [toAssignable]. *)
Definition toAssignable_discriminants : list string :=
  ["Identifier"; "PrivateName"; "ObjectPattern"; "ArrayPattern";
   "AssignmentPattern"; "ObjectExpression"; "ObjectProperty";
   "SpreadElement"; "ArrayExpression"; "AssignmentExpression";
   "MemberExpression"].

(** The discriminants that have an arm of their own in the [switch] of
    [checkLVal]. *)
Definition checkLVal_discriminants : list string :=
  ["PrivateName"; "Identifier"; "MemberExpression"; "ObjectPattern";
   "ArrayPattern"; "AssignmentPattern"; "RestElement"].

(** The node with the discriminant and the operator field of every node
    in it forgotten: positions, names, kinds and the shape of the tree
    are what is left. *)
Fixpoint erase (n : Node) {struct n} : Node :=
  mkNode "" (start n) (end_ n) (name n) (kind n) None
         (option_map erase (key n))
         (option_map erase (value n))
         (option_map erase (argument n))
         (option_map erase (left n))
         (option_map erase (right n))
         (option_map (List.map erase) (properties n))
         (option_map (List.map (option_map erase)) (elements n)).

(** [child n c]: [c] is one of the nodes the fields of [n] hold. *)
Definition child (n c : Node) : Prop :=
  key n = Some c \/ value n = Some c \/ argument n = Some c
  \/ left n = Some c \/ right n = Some c
  \/ (exists ps, properties n = Some ps /\ In c ps)
  \/ (exists es, elements n = Some es /\ In (Some c) es).

(** The clash map after a validation, against the one before it: none
    is made when none was given, and a key marked before is marked
    after. *)
Definition marks_kept (before after : option ClashMap) : Prop :=
  match before with
  | None => after = None
  | Some m =>
    exists m', after = Some m' /\
               forall k, marked m k = true -> marked m' k = true
  end.

(** The names of the nodes of a list of entries, in order. *)
Definition element_names (es : list (option Node)) : list string :=
  omap (option_map name) es.

(** The clash map with the keys of the names marked, in order. *)
Definition mark_all (names : list string) (m : ClashMap)
  : ClashMap :=
  foldl (fun acc x => mark acc ("_" +:+ x)) m names.



(** * Properties *)

(** ** The two forms of the list conversion agree *)

Section ListOverFacts.

Variable conv : Node -> Node * completion.

Lemma convert_last_elt_kept last last' :
  convert_last_elt conv last = (last', None, false) -> last' = last.
Proof.
  unfold convert_last_elt.
  destruct last as [l|]; [|congruence].
  destruct (is_type l "RestElement"); [congruence|].
  destruct (is_type l "SpreadElement"); [|congruence].
  destruct (argument _) as [arg|]; [|congruence].
  destruct (conv arg) as [arg' [e|]]; [congruence|].
  destruct (_ && _); unfold unexpected; congruence.
Qed.

Lemma convert_last_lookup (exprList : list (option Node)) :
  exprList <> [] ->
  convert_last conv exprList =
    let '(last', c, dec) :=
      convert_last_elt conv
        (default None (exprList !! (length exprList - 1)%nat)) in
    (<[(length exprList - 1)%nat := last']> exprList, c, dec).
Proof.
  induction exprList as [|elt rest IH]; [congruence|intros _].
  destruct rest as [|elt2 rest].
  - simpl. destruct (convert_last_elt conv elt) as [[last' c] dec].
    reflexivity.
  - change (convert_last conv (elt :: elt2 :: rest))
      with (let '(rest', c, dec) := convert_last conv (elt2 :: rest) in
            (elt :: rest', c, dec)).
    rewrite IH by congruence.
    replace (length (elt :: elt2 :: rest) - 1)%nat
      with (S (length (elt2 :: rest) - 1))%nat by (simpl; lia).
    simpl.
    destruct (convert_last_elt conv _) as [[last' c] dec]. reflexivity.
Qed.

Lemma convert_loop_0 (exprList : list (option Node)) :
  convert_loop conv exprList 0 = (exprList, None).
Proof. destruct exprList; reflexivity. Qed.

Lemma convert_loop_length (exprList : list (option Node)) todo :
  length (convert_loop conv exprList todo).1 = length exprList.
Proof.
  revert exprList; induction todo as [|todo IH]; intros [|[elt|] rest];
    simpl; try reflexivity.
  - destruct (is_type elt "SpreadElement"); [reflexivity|].
    destruct (conv elt) as [elt' [e|]]; [reflexivity|].
    specialize (IH rest).
    destruct (convert_loop conv rest todo) as [rest' c']. simpl in *.
    congruence.
  - specialize (IH rest).
    destruct (convert_loop conv rest todo) as [rest' c']. simpl in *.
    congruence.
Qed.

(** The loop does not read the entries from [end] on. *)
Lemma convert_loop_insert (exprList : list (option Node)) todo k x :
  (todo <= k)%nat ->
  convert_loop conv (<[k := x]> exprList) todo =
    let '(l2, c) := convert_loop conv exprList todo in (<[k := x]> l2, c).
Proof.
  revert exprList k; induction todo as [|todo IH]; intros exprList k Hk.
  - rewrite !convert_loop_0. reflexivity.
  - destruct k as [|k]; [lia|].
    destruct exprList as [|[elt|] rest]; simpl; try reflexivity.
    + destruct (is_type elt "SpreadElement"); [reflexivity|].
      destruct (conv elt) as [elt' [e|]]; [reflexivity|].
      rewrite IH by lia.
      destruct (convert_loop conv rest todo) as [rest' c']. reflexivity.
    + rewrite IH by lia.
      destruct (convert_loop conv rest todo) as [rest' c']. reflexivity.
Qed.

Lemma convert_list_eq (exprList : list (option Node)) :
  convert_list conv exprList = toAssignableList_over conv exprList.
Proof.
  unfold convert_list, toAssignableList_over.
  destruct exprList as [|elt rest] eqn:E; [reflexivity|].
  rewrite <- E. assert (Hne : exprList <> []) by (subst; congruence).
  rewrite convert_last_lookup by assumption.
  assert (Hlen : length exprList = S (length rest)) by (subst; reflexivity).
  assert (Hm : forall (A : Type) (a b : A),
             match length exprList with 0%nat => a | S _ => b end = b)
    by (intros; rewrite Hlen; reflexivity).
  rewrite Hm. clear Hm.
  destruct (convert_last_elt conv _) as [[last' c] dec] eqn:Hlast.
  destruct c as [e|]; [reflexivity|].
  destruct dec.
  - rewrite convert_loop_insert by lia.
    pose proof (convert_loop_length exprList (length exprList - 1)) as Hl.
    destruct (convert_loop conv exprList _) as [l2 c']. simpl in Hl.
    f_equal.
    apply list_eq; intros i.
    destruct (decide (i < length exprList - 1)%nat) as [Hi|Hi].
    + rewrite lookup_app_l by (rewrite length_take; lia).
      rewrite lookup_take_lt by lia.
      rewrite list_lookup_insert_ne by lia. reflexivity.
    + rewrite lookup_app_r by (rewrite length_take; lia).
      rewrite length_take, lookup_drop.
      match goal with
      | |- context [(?a + (i - ?b))%nat] =>
        replace (a + (i - b))%nat with i by lia
      end.
      destruct (decide (i = length exprList - 1)%nat) as [->|Hi'].
      * rewrite !list_lookup_insert_eq by lia. reflexivity.
      * rewrite !list_lookup_insert_ne by lia.
        rewrite !lookup_ge_None_2 by lia. reflexivity.
  - apply convert_last_elt_kept in Hlast. subst last'.
    rewrite list_insert_id; [reflexivity|].
    destruct (exprList !! (length exprList - 1)%nat) eqn:Hlk; [reflexivity|].
    apply lookup_ge_None_1 in Hlk. lia.
Qed.

End ListOverFacts.

(** ** The equations of toAssignable

    [toAssignable_node], read as the source is written: the
    ArrayExpression arm calls [toAssignableList]. *)

Lemma toAssignable_node_unfold (node : Node) (isBinding : bool)
    (contextDescription : string) :
  toAssignable_node node isBinding contextDescription =
  if already_pattern node then (node, None)
  else if is_type node "ObjectExpression" then
    let node1 := set_type node "ObjectPattern" in
    match properties node with
    | None => (node1, Some TypeError)
    | Some props =>
      let '(props', c) :=
        convert_properties
          (fun prop =>
             toAssignable_node prop isBinding "object destructuring pattern")
          props in
      (set_properties node1 (Some props'), c)
    end
  else if is_type node "ObjectProperty" then
    let '(v', c) := toAssignable (value node) isBinding contextDescription in
    (set_value node v', c)
  else if is_type node "SpreadElement" then
    let node1 := set_type node "RestElement" in
    let '(arg', c) :=
      toAssignable (argument node1) isBinding contextDescription in
    (set_argument node1 arg', c)
  else if is_type node "ArrayExpression" then
    let node1 := set_type node "ArrayPattern" in
    match elements node1 with
    | None => (node1, Some TypeError)
    | Some exprList =>
      let '(exprList', c) :=
        toAssignableList exprList isBinding contextDescription in
      (set_elements node1 (Some exprList'), c)
    end
  else if is_type node "AssignmentExpression" then
    if option_eqb (operator node) "=" then
      (delete_operator (set_type node "AssignmentPattern"), None)
    else
      match left node with
      | None => (node, Some TypeError)
      | Some l =>
        (node, raise (end_ l)
                 "Only '=' operator can be used for specifying default value.")
      end
  else if is_type node "MemberExpression" && negb isBinding then (node, None)
  else (node, raise (start node) (invalid_lhs_message contextDescription)).
Proof.
  unfold toAssignableList, toAssignable.
  destruct node as [ty st en nm kd op ky vl ar lf rt props elts].
  cbn [elements set_type value argument].
  destruct elts as [exprList|].
  - rewrite <- convert_list_eq.
    destruct vl as [v|], ar as [a|]; simpl;
      repeat match goal with
             | |- context [if ?b then _ else _] => destruct b
             | |- context [let '(_, _) := ?p in _] => destruct p
             end; reflexivity.
  - destruct vl as [v|], ar as [a|]; simpl;
      repeat match goal with
             | |- context [if ?b then _ else _] => destruct b
             | |- context [let '(_, _) := ?p in _] => destruct p
             end; reflexivity.
Qed.

(** ** Discriminant tests *)

Lemma is_type_true (n : Node) (t : string) : is_type n t = true <-> type n = t.
Proof. unfold is_type. apply String.eqb_eq. Qed.

Lemma is_type_false (n : Node) (t : string) :
  is_type n t = false <-> type n <> t.
Proof. unfold is_type. apply String.eqb_neq. Qed.

Lemma is_type_of (n : Node) (t u : string) :
  type n = t -> is_type n u = String.eqb t u.
Proof. intros <-. reflexivity. Qed.

(** Rewrites the tests of a node whose discriminant is known. *)
Ltac known_type H :=
  unfold already_pattern;
  repeat rewrite (is_type_of _ _ _ H);
  cbn [String.eqb Ascii.eqb Bool.eqb orb andb negb].

Ltac known_type_in H H' :=
  unfold already_pattern in H';
  repeat rewrite (is_type_of _ _ _ H) in H';
  cbn [String.eqb Ascii.eqb Bool.eqb orb andb negb] in H'.

(** ** Already-pattern nodes (C6) *)

(** C6: a node whose discriminant is Identifier, PrivateName,
    ObjectPattern, ArrayPattern or AssignmentPattern comes back from
    toAssignable as it was given (same discriminant, same fields, same
    children) and nothing is raised, whatever isBinding and the context
    description are; an absent node comes back absent. *)
Theorem toAssignable_pattern_unchanged
    (node : option Node) (isBinding : bool) (contextDescription : string) :
  (forall n, node = Some n ->
     In (type n) ["Identifier"; "PrivateName"; "ObjectPattern";
                  "ArrayPattern"; "AssignmentPattern"]) ->
  toAssignable node isBinding contextDescription = (node, None).
Proof.
  intros H. destruct node as [n|]; [|reflexivity].
  specialize (H n eq_refl). unfold toAssignable.
  rewrite toAssignable_node_unfold.
  simpl in H.
  destruct H as [H|[H|[H|[H|[H|[]]]]]]; symmetry in H;
    known_type H; reflexivity.
Qed.

Lemma toAssignable_pattern_unchanged_witness :
  toAssignable (Some (Identifier 0 1 "a")) true "variable declaration"
    = (Some (Identifier 0 1 "a"), None)
  /\ toAssignable None false "" = (None, None).
Proof.
  split.
  - apply toAssignable_pattern_unchanged.
    intros n Hn. injection Hn as <-. simpl. auto.
  - apply toAssignable_pattern_unchanged. intros n Hn. discriminate Hn.
Defined.

(** ** AssignmentExpression (C7) *)

(** C7: on an AssignmentExpression, toAssignable retags the node
    AssignmentPattern, removes its operator field and raises nothing when
    the operator is exactly [=]; with any other operator (or none) the
    call fails, the node keeps its discriminant and its fields, and the
    error is the malformed-default one, raised at the end of the left
    child. *)
Theorem toAssignable_assignment_expression
    (node : Node) (isBinding : bool) (contextDescription : string) :
  type node = "AssignmentExpression" ->
  toAssignable_node node isBinding contextDescription =
    if option_eqb (operator node) "="
    then (delete_operator (set_type node "AssignmentPattern"), None)
    else (node,
          match left node with
          | Some l =>
            raise (end_ l)
              "Only '=' operator can be used for specifying default value."
          | None => Some TypeError
          end).
Proof.
  intros H. rewrite toAssignable_node_unfold. known_type H.
  destruct (option_eqb _ _); [reflexivity|].
  destruct (left node); reflexivity.
Qed.

Lemma toAssignable_assignment_expression_witness :
  let a := Identifier 0 1 "a" in
  let one := NumericLiteral 4 5 in
  (toAssignable_node (AssignmentExpression 0 5 "=" a one) false "x" =
     (mkNode "AssignmentPattern" 0 5 "" None None None None None
             (Some a) (Some one) None None, None))
  /\ (toAssignable_node (AssignmentExpression 0 6 "+=" a one) false "x" =
        (AssignmentExpression 0 6 "+=" a one,
         Some (Raise 1
           "Only '=' operator can be used for specifying default value."))).
Proof.
  split.
  - apply (toAssignable_assignment_expression
             (AssignmentExpression 0 5 "=" (Identifier 0 1 "a")
                                   (NumericLiteral 4 5)) false "x").
    reflexivity.
  - apply (toAssignable_assignment_expression
             (AssignmentExpression 0 6 "+=" (Identifier 0 1 "a")
                                   (NumericLiteral 4 5)) false "x").
    reflexivity.
Defined.

(** ** ObjectExpression (C8, C10) *)

Section ConvertProperties.

Variable isBinding : bool.

Let conv := fun prop : Node =>
  toAssignable_node prop isBinding "object destructuring pattern".

Lemma convert_properties_app (pre pre' rest : list Node) :
  Forall2 (property_converted isBinding) pre pre' ->
  convert_properties conv (pre ++ rest) =
    let '(rest', c) := convert_properties conv rest in (pre' ++ rest', c).
Proof.
  induction 1 as [|p p' pre pre' [Hp Hc] _ IH]; simpl.
  - destruct (convert_properties conv rest). reflexivity.
  - apply is_type_false in Hp. rewrite Hp.
    unfold conv at 1. rewrite Hc. rewrite IH.
    destruct (convert_properties conv rest). reflexivity.
Qed.

Lemma convert_properties_all (props props' : list Node) :
  Forall2 (property_converted isBinding) props props' ->
  convert_properties conv props = (props', None).
Proof.
  intros H. rewrite <- (app_nil_r props).
  rewrite (convert_properties_app _ _ _ H). simpl.
  rewrite app_nil_r. reflexivity.
Qed.

Lemma convert_properties_fails (props props' : list Node) (e : error) :
  convert_properties conv props = (props', Some e) ->
  exists pre pre' p post,
    props = pre ++ p :: post /\
    Forall2 (property_converted isBinding) pre pre' /\
    ((type p = "ObjectMethod" /\ props' = pre' ++ p :: post) \/
     (type p <> "ObjectMethod" /\
      exists p', conv p = (p', Some e) /\ props' = pre' ++ p' :: post)).
Proof.
  revert props'. induction props as [|p rest IH]; intros props' H.
  - discriminate H.
  - simpl in H. destruct (is_type p "ObjectMethod") eqn:Hm.
    + exists [], [], p, rest. split; [reflexivity|]. split; [constructor|].
      left. apply is_type_true in Hm. split; [assumption|].
      destruct (key p); [destruct (_ || _)|]; injection H as <- _;
        reflexivity.
    + apply is_type_false in Hm.
      destruct (conv p) as [p' [e'|]] eqn:Hp.
      * injection H as <- <-.
        exists [], [], p, rest. split; [reflexivity|]. split; [constructor|].
        right. split; [assumption|]. exists p'. auto.
      * destruct (convert_properties conv rest) as [rest' c'] eqn:Hr.
        injection H as <- ->.
        destruct (IH _ eq_refl) as (pre & pre' & q & post & -> & HF & Hq).
        exists (p :: pre), (p' :: pre'), q, post.
        split; [reflexivity|]. split.
        { constructor; [split; assumption|assumption]. }
        destruct Hq as [[Hq ->]|[Hq (q' & Hq' & ->)]].
        -- left. auto.
        -- right. split; [assumption|]. exists q'. auto.
Qed.

End ConvertProperties.

(** C8: on an ObjectExpression, toAssignable retags the node
    ObjectPattern and goes through the properties in order.  After the
    properties [pre] were converted (to [pre']), a property [p] that is an
    ObjectMethod ends the call with the accessor message when its kind is
    [get] or [set] and with the method message otherwise, both at the
    start of its key; a property that is not a method is converted by
    toAssignable under the description "object destructuring pattern",
    and its error, if any, ends the call; when every property is
    converted the call returns. *)
Theorem toAssignable_object_expression
    (node : Node) (isBinding : bool) (contextDescription : string)
    (props : list Node) :
  type node = "ObjectExpression" ->
  properties node = Some props ->
  let result := toAssignable_node node isBinding contextDescription in
  let retagged ps := set_properties (set_type node "ObjectPattern") (Some ps) in
  (forall pre pre' p post k,
      props = pre ++ p :: post ->
      Forall2 (property_converted isBinding) pre pre' ->
      type p = "ObjectMethod" -> key p = Some k ->
      result =
        (retagged (pre' ++ p :: post),
         raise (start k)
           (if option_eqb (kind p) "get" || option_eqb (kind p) "set"
            then "Object pattern can't contain getter or setter"
            else "Object pattern can't contain methods")))
  /\ (forall pre pre' p p' e post,
      props = pre ++ p :: post ->
      Forall2 (property_converted isBinding) pre pre' ->
      type p <> "ObjectMethod" ->
      toAssignable_node p isBinding "object destructuring pattern"
        = (p', Some e) ->
      result = (retagged (pre' ++ p' :: post), Some e))
  /\ (forall props',
      Forall2 (property_converted isBinding) props props' ->
      result = (retagged props', None)).
Proof.
  intros Ht Hp result retagged. subst result retagged.
  rewrite toAssignable_node_unfold. known_type Ht. rewrite Hp. cbv zeta.
  split; [|split].
  - intros pre pre' p post k -> HF Hm Hk.
    rewrite (convert_properties_app _ _ _ _ HF). simpl.
    apply is_type_true in Hm. rewrite Hm, Hk.
    destruct (_ || _); reflexivity.
  - intros pre pre' p p' e post -> HF Hm Hc.
    rewrite (convert_properties_app _ _ _ _ HF). simpl.
    apply is_type_false in Hm. rewrite Hm, Hc. reflexivity.
  - intros props' HF.
    rewrite (convert_properties_all _ _ _ HF). reflexivity.
Qed.

Lemma toAssignable_object_expression_witness :
  let a := Identifier 1 2 "a" in
  let b := Identifier 4 5 "b" in
  let x := Identifier 11 12 "x" in
  let prop := ObjectProperty 1 5 a b in
  let getter := ObjectMethod 7 17 "get" x in
  let method := ObjectMethod 7 17 "method" x in
  toAssignable_node (ObjectExpression 0 18 [prop; getter]) false "x"
    = (mkNode "ObjectPattern" 0 18 "" None None None None None None None
              (Some [prop; getter]) None,
       Some (Raise 11 "Object pattern can't contain getter or setter"))
  /\ toAssignable_node (ObjectExpression 0 18 [prop; method]) false "x"
    = (mkNode "ObjectPattern" 0 18 "" None None None None None None None
              (Some [prop; method]) None,
       Some (Raise 11 "Object pattern can't contain methods"))
  /\ toAssignable_node (ObjectExpression 0 6 [prop]) false "x"
    = (mkNode "ObjectPattern" 0 6 "" None None None None None None None
              (Some [prop]) None, None).
Proof.
  intros a b x prop getter method.
  assert (HF : Forall2 (property_converted false) [prop] [prop]).
  { constructor; [|constructor]. split; [discriminate|reflexivity]. }
  split; [|split].
  - exact (proj1 (toAssignable_object_expression
                    (ObjectExpression 0 18 [prop; getter]) false "x"
                    [prop; getter] eq_refl eq_refl)
                 [prop] [prop] getter [] x eq_refl HF eq_refl eq_refl).
  - exact (proj1 (toAssignable_object_expression
                    (ObjectExpression 0 18 [prop; method]) false "x"
                    [prop; method] eq_refl eq_refl)
                 [prop] [prop] method [] x eq_refl HF eq_refl eq_refl).
  - exact (proj2 (proj2 (toAssignable_object_expression
                    (ObjectExpression 0 6 [prop]) false "x"
                    [prop] eq_refl eq_refl))
                 [prop] HF).
Defined.

(** C10: when toAssignable fails on an ObjectExpression, whatever the
    error (a method or an accessor among the properties, or a property
    that does not convert), the node is already retagged ObjectPattern in
    the state the error leaves behind: the retag comes before the
    properties are looked at and is not undone. *)
Theorem toAssignable_object_retagged_on_failure
    (node node' : Node) (isBinding : bool) (contextDescription : string)
    (e : error) :
  type node = "ObjectExpression" ->
  toAssignable_node node isBinding contextDescription = (node', Some e) ->
  type node' = "ObjectPattern" /\ type node' <> type node.
Proof.
  intros Ht H. rewrite toAssignable_node_unfold in H. known_type_in Ht H.
  assert (type node' = "ObjectPattern") as Hr.
  { cbv zeta in H. destruct (properties node) as [props|].
    - destruct (convert_properties _ props) as [props' c].
      injection H as <- _. reflexivity.
    - injection H as <- _. reflexivity. }
  split; [assumption|]. rewrite Hr, Ht. discriminate.
Qed.

Lemma toAssignable_object_retagged_on_failure_witness :
  let getter := ObjectMethod 1 11 "get" (Identifier 5 6 "x") in
  let node' := mkNode "ObjectPattern" 0 12 "" None None None None None None
                      None (Some [getter]) None in
  toAssignable_node (ObjectExpression 0 12 [getter]) true "x"
    = (node', Some (Raise 5 "Object pattern can't contain getter or setter"))
  /\ type node' = "ObjectPattern"
  /\ type node' <> type (ObjectExpression 0 12 [getter]).
Proof.
  intros getter node'. split; [reflexivity|].
  exact (toAssignable_object_retagged_on_failure
           (ObjectExpression 0 12 [getter]) node' true "x"
           (Raise 5 "Object pattern can't contain getter or setter")
           eq_refl eq_refl).
Defined.

(** ** checkLVal (C4, C5) *)

Section CheckLValFacts.

Variable checkReservedWord : string -> Z -> bool -> bool -> completion.

Lemma checkLVal_unfold (expr : Node) (isBinding : bool)
    (checkClashes : option ClashMap)
    (contextDescription : string) :
  checkLVal checkReservedWord expr isBinding checkClashes contextDescription
  =
  if is_type expr "PrivateName" || is_type expr "Identifier" then
    match checkReservedWord (name expr) (start expr) false true with
    | Some e => (checkClashes, Some e)
    | None =>
      match checkClashes with
      | Some m =>
        let key := "_" +:+ name expr in
        if marked m key then
          (checkClashes,
           raise (start expr) "Argument name clash in strict mode")
        else (Some (mark m key), None)
      | None => (checkClashes, None)
      end
    end
  else if is_type expr "MemberExpression" then
    if isBinding then
      (checkClashes,
       raise (start expr)
         ((if isBinding then "Binding" else "Assigning to")
            +:+ " member expression"))
    else (checkClashes, None)
  else if is_type expr "ObjectPattern" then
    match properties expr with
    | None => (checkClashes, Some TypeError)
    | Some props =>
      check_properties
        (fun e m => checkLVal checkReservedWord e isBinding m
                      "object destructuring pattern")
        props checkClashes
    end
  else if is_type expr "ArrayPattern" then
    match elements expr with
    | None => (checkClashes, Some TypeError)
    | Some elems =>
      check_elements
        (fun e m => checkLVal checkReservedWord e isBinding m
                      "array destructuring pattern")
        elems checkClashes
    end
  else if is_type expr "AssignmentPattern" then
    check_target
      (fun e m => checkLVal checkReservedWord e isBinding m
                    "assignment pattern")
      (left expr) checkClashes
  else if is_type expr "RestElement" then
    check_target
      (fun e m => checkLVal checkReservedWord e isBinding m "rest element")
      (argument expr) checkClashes
  else
    (checkClashes,
     raise (start expr)
       (invalid_lval_message isBinding contextDescription)).
Proof. destruct expr. reflexivity. Qed.

(** C4: on a MemberExpression, checkLVal raises exactly when isBinding
    is true, and the message then reads "Binding member expression";
    when isBinding is false the call returns and the clash map is the
    one that was given. *)
Theorem checkLVal_member_expression (expr : Node) (isBinding : bool)
    (checkClashes : option ClashMap)
    (contextDescription : string) :
  type expr = "MemberExpression" ->
  checkLVal checkReservedWord expr isBinding checkClashes contextDescription
  = (checkClashes,
     if isBinding then raise (start expr) "Binding member expression"
     else None).
Proof.
  intros H. rewrite checkLVal_unfold. known_type H.
  destruct isBinding; reflexivity.
Qed.

Lemma clash_key_inj (x y : string) : "_" +:+ x = "_" +:+ y -> x = y.
Proof. intros H. injection H as H. exact H. Qed.

Lemma marked_mark_eq (m : ClashMap) (k : string) : marked (mark m k) k = true.
Proof. unfold marked, mark. simpl. rewrite lookup_insert_eq. reflexivity. Qed.

Lemma marked_mark_ne (m : ClashMap) (k k' : string) :
  k <> k' -> marked (mark m k) k' = marked m k'.
Proof.
  intros H. unfold marked, mark. simpl.
  rewrite lookup_insert_ne by exact H. reflexivity.
Qed.


End CheckLValFacts.

Lemma checkLVal_member_expression_witness :
  checkLVal (fun _ _ _ _ => None) (MemberExpression 3 6) true None
            "variable declaration"
    = (None, Some (Raise 3 "Binding member expression"))
  /\ checkLVal (fun _ _ _ _ => None) (MemberExpression 3 6) false
            (Some (mark null_prototype_map "_a")) "assignment expression"
    = (Some (mark null_prototype_map "_a"), None).
Proof.
  split.
  - apply (checkLVal_member_expression (fun _ _ _ _ => None)
             (MemberExpression 3 6) true None). reflexivity.
  - apply (checkLVal_member_expression (fun _ _ _ _ => None)
             (MemberExpression 3 6) false). reflexivity.
Defined.



(** ** parseBindingIdentifier (C9) *)

(** C9: parseBindingIdentifier calls the identifier parser with the
    liberal flag [shouldAllowYieldIdentifier], and on the [yield] token
    that flag is true exactly when the state is not strict and not inside
    a generator; one of the two holding alone is not enough, and on any
    other token the flag is false.  What the identifier parser does with
    the flag is its own matter. *)
Theorem parseBindingIdentifier_yield
    (Result : Type) (parseIdentifier : bool -> State.State -> Result)
    (st : State.State) :
  parseBindingIdentifier parseIdentifier st
    = parseIdentifier (shouldAllowYieldIdentifier st) st
  /\ (shouldAllowYieldIdentifier st = true <->
      State.type st = tt._yield /\
      State.strict st = false /\ State.inGenerator st = false)
  /\ shouldAllowYieldIdentifier st
     = match_ st tt._yield
       && negb (State.strict st || State.inGenerator st).
Proof.
  split; [reflexivity|]. unfold shouldAllowYieldIdentifier, match_. split.
  - rewrite !andb_true_iff, !negb_true_iff, bool_decide_eq_true. tauto.
  - destruct (bool_decide _), (State.strict st), (State.inGenerator st);
      reflexivity.
Qed.

(** ** toAssignableList (C2, C3) *)

Section ListFacts.

Variable isBinding : bool.
Variable contextDescription : string.

Let conv := fun n : Node =>
  toAssignable_node n isBinding contextDescription.

Lemma convert_loop_app (pre pre' rest : list (option Node)) (k : nat) :
  Forall2 (element_converted isBinding contextDescription) pre pre' ->
  convert_loop conv (pre ++ rest) (length pre + k) =
    let '(rest', c) := convert_loop conv rest k in (pre' ++ rest', c).
Proof.
  induction 1 as [|x x' pre pre' [Hs Hc] _ IH]; simpl.
  - destruct (convert_loop conv rest k). reflexivity.
  - destruct x as [n|]; simpl in Hc.
    + specialize (Hs n eq_refl). apply is_type_false in Hs. rewrite Hs.
      unfold conv at 1.
      destruct (toAssignable_node n _ _) as [n' c] eqn:Hn.
      injection Hc as <- ->. rewrite IH.
      destruct (convert_loop conv rest k). reflexivity.
    + injection Hc as <-. rewrite IH.
      destruct (convert_loop conv rest k). reflexivity.
Qed.

(** Entries the loop has not reached when it stops are as they were. *)
Lemma convert_loop_spread (pre rest l' : list (option Node)) (sp : Node)
    (k : nat) (c : completion) :
  type sp = "SpreadElement" ->
  (length pre < k)%nat ->
  convert_loop conv (pre ++ Some sp :: rest) k = (l', c) ->
  c <> None /\ l' !! length pre = Some (Some sp).
Proof.
  intros Hsp. revert k l'.
  induction pre as [|x pre IH]; intros k l' Hk H.
  - destruct k as [|k]; [lia|]. simpl in H.
    apply is_type_true in Hsp. rewrite Hsp in H.
    injection H as <- <-. split; [discriminate|reflexivity].
  - destruct k as [|k]; [simpl in Hk; lia|]. simpl in Hk, H.
    destruct x as [n|].
    + destruct (is_type n "SpreadElement").
      { injection H as <- <-. split; [discriminate|].
        simpl. apply list_lookup_middle. reflexivity. }
      destruct (conv n) as [n' [e|]].
      { injection H as <- <-. split; [discriminate|].
        simpl. apply list_lookup_middle. reflexivity. }
      destruct (convert_loop conv (pre ++ Some sp :: rest) k)
        as [r' c'] eqn:Hr.
      injection H as <- <-. simpl. apply (IH k); [lia|assumption].
    + destruct (convert_loop conv (pre ++ Some sp :: rest) k)
        as [r' c'] eqn:Hr.
      injection H as <- <-. simpl. apply (IH k); [lia|assumption].
Qed.

(** [toAssignableList] on a list given by its last entry and the
    entries before it. *)
Lemma toAssignableList_snoc (pre : list (option Node)) (last : option Node) :
  toAssignableList (pre ++ [last]) isBinding contextDescription =
    let '(last', c, dec) := convert_last_elt conv last in
    match c with
    | Some e => (pre ++ [last'], Some e)
    | None =>
      convert_loop conv (pre ++ [last'])
        (if dec then length pre else S (length pre))
    end.
Proof.
  unfold toAssignableList, toAssignableList_over. fold conv.
  rewrite length_app. simpl length.
  replace (length pre + 1)%nat with (S (length pre)) by lia.
  cbv iota. replace (S (length pre) - 1)%nat with (length pre) by lia.
  rewrite list_lookup_middle by reflexivity. simpl default.
  destruct (convert_last_elt conv last) as [[last' c] dec].
  rewrite insert_app_r_alt by lia.
  replace (length pre - length pre)%nat with 0%nat by lia. simpl.
  destruct c; [reflexivity|]. destruct dec; reflexivity.
Qed.



(** C2, as the code has it: a SpreadElement at an index that is not the
    last makes toAssignableList fail, and in the state the failure
    leaves that entry is as it was given: it was not converted.  The
    error is that of the first step that throws.  The last entry is
    treated first: when it is a SpreadElement and toAssignable throws on
    its argument, the call fails with that error, when the converted
    argument is not an Identifier, a MemberExpression or an
    ArrayPattern, with the unexpected-token error at the argument, and
    when it has no argument, with a TypeError.  When
    the treatment of the last entry returned, the entries are gone
    through in order: when toAssignable throws on an entry before the
    spread, the entries before that one having been converted, the call
    fails with that error; when all the entries before the spread were
    converted (holes among them stay holes and raise nothing), the call
    fails with the misplaced-rest error at the start of the spread. *)
Theorem toAssignableList_misplaced_spread
    (pre mid : list (option Node)) (sp : Node) (last : option Node) :
  type sp = "SpreadElement" ->
  let exprList := pre ++ Some sp :: mid ++ [last] in
  let result := toAssignableList exprList isBinding contextDescription in
  (exists l' e, result = (l', Some e) /\ l' !! length pre = Some (Some sp))
  /\ (forall pre' last' dec,
        Forall2 (element_converted isBinding contextDescription) pre pre' ->
        convert_last_elt
          (fun n => toAssignable_node n isBinding contextDescription) last
          = (last', None, dec) ->
        result = (pre' ++ Some sp :: mid ++ [last'],
                  raise (start sp) rest_not_last))
  /\ (forall l arg arg' e,
        last = Some l -> type l = "SpreadElement" ->
        argument l = Some arg ->
        toAssignable_node arg isBinding contextDescription
          = (arg', Some e) ->
        result
        = (pre ++ Some sp :: mid
               ++ [Some (set_argument (set_type l "RestElement")
                                      (Some arg'))],
           Some e))
  /\ (forall l arg arg',
        last = Some l -> type l = "SpreadElement" ->
        argument l = Some arg ->
        toAssignable_node arg isBinding contextDescription = (arg', None) ->
        rest_argument_allowed arg' = false ->
        result
        = (pre ++ Some sp :: mid
               ++ [Some (set_argument (set_type l "RestElement")
                                      (Some arg'))],
           unexpected (start arg')))
  /\ (forall l,
        last = Some l -> type l = "SpreadElement" -> argument l = None ->
        result
        = (pre ++ Some sp :: mid ++ [Some (set_type l "RestElement")],
           Some TypeError))
  /\ (forall pre1 pre1' x x' pre2 e last' dec,
        pre = pre1 ++ Some x :: pre2 ->
        Forall2 (element_converted isBinding contextDescription)
                pre1 pre1' ->
        type x <> "SpreadElement" ->
        toAssignable_node x isBinding contextDescription = (x', Some e) ->
        convert_last_elt
          (fun n => toAssignable_node n isBinding contextDescription) last
          = (last', None, dec) ->
        result = (pre1' ++ Some x' :: pre2 ++ Some sp :: mid ++ [last'],
                  Some e)).
Proof.
  intros Hsp exprList result. subst exprList result.
  replace (pre ++ Some sp :: mid ++ [last])
    with ((pre ++ Some sp :: mid) ++ [last])
    by (rewrite <- app_assoc; reflexivity).
  rewrite toAssignableList_snoc. fold conv.
  assert (Hre : forall x : option Node,
             (pre ++ Some sp :: mid) ++ [x] = pre ++ Some sp :: mid ++ [x])
    by (intros x; rewrite <- app_assoc; reflexivity).
  assert (Hspread : forall l arg,
             type l = "SpreadElement" -> argument l = Some arg ->
             convert_last_elt conv (Some l)
             = let '(arg', c) := conv arg in
               let l2 := set_argument (set_type l "RestElement")
                                      (Some arg') in
               match c with
               | Some e => (Some l2, Some e, false)
               | None =>
                 if rest_argument_allowed arg' then (Some l2, None, true)
                 else (Some l2, unexpected (start arg'), false)
               end).
  { intros l arg Hl Ha. unfold convert_last_elt.
    rewrite (is_type_of _ _ _ Hl). cbn [String.eqb Ascii.eqb Bool.eqb].
    apply is_type_true in Hl. rewrite Hl. cbv zeta.
    cbn [argument set_type]. rewrite Ha.
    destruct (conv arg) as [arg' [e|]]; [reflexivity|].
    unfold rest_argument_allowed.
    destruct (is_type arg' "Identifier"), (is_type arg' "MemberExpression"),
             (is_type arg' "ArrayPattern"); reflexivity. }
  split; [|split; [|split; [|split; [|split]]]].
  - destruct (convert_last_elt conv last) as [[last1 c] dec1] eqn:Hlast.
    destruct c as [e|].
    + exists ((pre ++ Some sp :: mid) ++ [last1]), e.
      split; [reflexivity|].
      rewrite Hre. apply list_lookup_middle. reflexivity.
    + rewrite Hre.
      destruct (convert_loop conv _ _) as [l' c] eqn:Hloop.
      apply convert_loop_spread in Hloop; [|assumption|].
      * destruct Hloop as [Hc Hl]. destruct c as [e|]; [|congruence].
        exists l', e. auto.
      * rewrite length_app. simpl. destruct dec1; lia.
  - intros pre' last' dec HF Hl. fold conv in Hl. rewrite Hl.
    rewrite Hre.
    replace (if dec then length (pre ++ Some sp :: mid)
             else S (length (pre ++ Some sp :: mid)))
      with (length pre +
            S (if dec then length mid else S (length mid)))%nat
      by (rewrite length_app; simpl; destruct dec; lia).
    rewrite (convert_loop_app _ _ _ _ HF). simpl.
    apply is_type_true in Hsp. rewrite Hsp. reflexivity.
  - intros l arg arg' e -> Hl Ha Hc.
    rewrite (Hspread l arg Hl Ha). unfold conv at 1. rewrite Hc.
    rewrite Hre. reflexivity.
  - intros l arg arg' -> Hl Ha Hc Hallowed.
    rewrite (Hspread l arg Hl Ha). unfold conv at 1. rewrite Hc.
    cbv zeta. rewrite Hallowed. rewrite Hre. reflexivity.
  - intros l -> Hl Ha. unfold convert_last_elt.
    rewrite (is_type_of _ _ _ Hl). cbn [String.eqb Ascii.eqb Bool.eqb].
    apply is_type_true in Hl. rewrite Hl. cbv zeta.
    cbn [argument set_type]. rewrite Ha. rewrite Hre. reflexivity.
  - intros pre1 pre1' x x' pre2 e last' dec Hpre HF Hx Hc Hl.
    fold conv in Hl. rewrite Hl. rewrite Hre. subst pre.
    replace (if dec
             then length ((pre1 ++ Some x :: pre2) ++ Some sp :: mid)
             else S (length ((pre1 ++ Some x :: pre2) ++ Some sp :: mid)))
      with (length pre1 +
            S (length pre2 +
               S (if dec then length mid else S (length mid))))%nat
      by (rewrite !length_app; simpl; rewrite ?length_app; simpl;
          destruct dec; lia).
    rewrite <- !app_assoc. cbn [app].
    rewrite (convert_loop_app _ _ _ _ HF). simpl.
    apply is_type_false in Hx. rewrite Hx.
    unfold conv at 1. rewrite Hc. reflexivity.
Qed.

End ListFacts.


(** C2 as the specification words it does not hold on [[1, ...a, b]]:
    the spread is at index 1 of three entries, and the call fails with
    the error of the entry before it, not with the misplaced-rest
    error. *)
Lemma toAssignableList_spread_not_first_error :
  let sp := SpreadElement 4 8 (Identifier 7 8 "a") in
  let exprList :=
    [Some (NumericLiteral 1 2); Some sp; Some (Identifier 10 11 "b")] in
  exprList !! 1%nat = Some (Some sp)
  /\ type sp = "SpreadElement"
  /\ (1 < length exprList - 1)%nat
  /\ toAssignableList exprList false "assignment expression"
     = (exprList,
        Some (Raise 1 "Invalid left-hand side in assignment expression"))
  /\ ~ (exists l',
         toAssignableList exprList false "assignment expression"
         = (l', raise (start sp) rest_not_last)).
Proof.
  intros sp exprList.
  split; [reflexivity|]. split; [reflexivity|]. split; [simpl; lia|].
  split; [reflexivity|].
  intros [l' H]. discriminate H.
Qed.

Lemma toAssignableList_misplaced_spread_witness :
  let a := Identifier 1 2 "a" in
  let sp := SpreadElement 6 10 (Identifier 9 10 "r") in
  let b := Identifier 12 13 "b" in
  let one := NumericLiteral 1 2 in
  let object := ObjectExpression 16 18 [] in
  let object' := mkNode "ObjectPattern" 16 18 "" None None None None None
                        None None (Some []) None in
  toAssignableList [Some a; None; Some sp; None; Some b] false
                   "assignment expression"
    = ([Some a; None; Some sp; None; Some b],
       Some (Raise 6
         "The rest element has to be the last element when destructuring"))
  /\ toAssignableList [Some a; Some one; Some sp; Some b] false
                      "assignment expression"
    = ([Some a; Some one; Some sp; Some b],
       Some (Raise 1 "Invalid left-hand side in assignment expression"))
  /\ toAssignableList [Some sp; Some (SpreadElement 13 15 one)] false
                      "assignment expression"
    = ([Some sp; Some (RestElement 13 15 one)],
       Some (Raise 1 "Invalid left-hand side in assignment expression"))
  /\ toAssignableList [Some sp; Some (SpreadElement 13 18 object)] false
                      "assignment expression"
    = ([Some sp; Some (RestElement 13 18 object')], Some (Unexpected 16)).
Proof.
  intros a sp b one object object'.
  split; [|split; [|split]].
  - apply (proj1 (proj2 (toAssignableList_misplaced_spread false
                           "assignment expression" [Some a; None] [None]
                           sp (Some b) eq_refl))
                 [Some a; None] (Some b) false).
    + repeat constructor; intros n Hn; [injection Hn as <-|]; discriminate.
    + reflexivity.
  - apply (proj2 (proj2 (proj2 (proj2 (proj2
             (toAssignableList_misplaced_spread false
                "assignment expression" [Some a; Some one] [] sp (Some b)
                eq_refl)))))
             [Some a] [Some a] one one []
             (Raise 1 "Invalid left-hand side in assignment expression")
             (Some b) false).
    + reflexivity.
    + repeat constructor. intros n Hn. injection Hn as <-. discriminate.
    + discriminate.
    + reflexivity.
    + reflexivity.
  - apply (proj1 (proj2 (proj2
             (toAssignableList_misplaced_spread false
                "assignment expression" [] [] sp
                (Some (SpreadElement 13 15 one)) eq_refl)))
             (SpreadElement 13 15 one) one one
             (Raise 1 "Invalid left-hand side in assignment expression"));
      reflexivity.
  - apply (proj1 (proj2 (proj2 (proj2
             (toAssignableList_misplaced_spread false
                "assignment expression" [] [] sp
                (Some (SpreadElement 13 18 object)) eq_refl))))
             (SpreadElement 13 18 object) object object');
      reflexivity.
Defined.

(** ** What a successful conversion leaves behind (C1) *)

(** Induction on nodes, with the hypothesis for the children the
    conversion goes into. *)
Section NodeInduction.

Variable P : Node -> Prop.

Hypothesis step : forall n,
  (forall x, value n = Some x -> P x) ->
  (forall x, argument n = Some x -> P x) ->
  (forall ps, properties n = Some ps -> Forall P ps) ->
  (forall es, elements n = Some es ->
     Forall (fun e => forall x, e = Some x -> P x) es) ->
  P n.

Lemma Node_children_ind : forall n, P n.
Proof.
  fix rec 1. intros [ty st en nm kd op ky vl ar lf rt ps es].
  apply step; simpl.
  - destruct vl as [v|]; intros x [= <-]. apply rec.
  - destruct ar as [a|]; intros x [= <-]. apply rec.
  - destruct ps as [l|]; intros l' [= <-].
    revert l. fix recl 1. intros [|p l]; constructor.
    + apply rec.
    + apply recl.
  - destruct es as [l|]; intros l' [= <-].
    revert l. fix recl 1. intros [|[x|] l]; constructor.
    + intros y [= <-]. apply rec.
    + apply recl.
    + intros y [=].
    + apply recl.
Qed.

End NodeInduction.

Lemma forall2b_snoc {A B : Type} (f : A -> B -> bool) (l : list A)
    (l' : list B) (x : A) (x' : B) :
  forall2b f l l' = true -> f x x' = true ->
  forall2b f (l ++ [x]) (l' ++ [x']) = true.
Proof.
  revert l'. induction l as [|a l IH]; intros [|a' l'] H Hx;
    simpl in *; try discriminate.
  - rewrite Hx. reflexivity.
  - apply andb_true_iff in H as [Ha Hl].
    rewrite Ha. simpl. apply IH; assumption.
Qed.

Lemma conversion_shape_unfold (isBinding : bool) (n n' : Node) :
  conversion_shape isBinding n n' =
  converted_discriminant isBinding n' &&
  if already_pattern n then true
  else if is_type n "ObjectExpression" then
    match properties n, properties n' with
    | Some ps, Some ps' => forall2b (conversion_shape isBinding) ps ps'
    | _, _ => false
    end
  else if is_type n "ObjectProperty" then
    match value n, value n' with
    | Some v, Some v' => conversion_shape isBinding v v'
    | None, None => true
    | _, _ => false
    end
  else if is_type n "SpreadElement" then
    match argument n, argument n' with
    | Some a, Some a' => conversion_shape isBinding a a'
    | None, None => true
    | _, _ => false
    end
  else if is_type n "ArrayExpression" then
    match elements n, elements n' with
    | Some es, Some es' =>
      forall2b (fun e e' =>
                  match e, e' with
                  | Some x, Some x' => conversion_shape isBinding x x'
                  | None, None => true
                  | _, _ => false
                  end) es es'
    | _, _ => false
    end
  else true.
Proof. destruct n. reflexivity. Qed.

Lemma already_pattern_converted (isBinding : bool) (n : Node) :
  already_pattern n = true -> converted_discriminant isBinding n = true.
Proof.
  unfold already_pattern, converted_discriminant, pattern_family, is_type.
  intros H. rewrite !orb_true_iff in *. tauto.
Qed.

Section ConversionShape.

Variable isBinding : bool.

(** The induction hypothesis for one node: whenever its conversion
    returns, the shape holds. *)
Let shaped (x : Node) : Prop :=
  forall contextDescription x',
    toAssignable_node x isBinding contextDescription = (x', None) ->
    conversion_shape isBinding x x' = true.

Let entry_shape (e e' : option Node) : bool :=
  match e, e' with
  | Some x, Some x' => conversion_shape isBinding x x'
  | None, None => true
  | _, _ => false
  end.

Lemma convert_properties_shape (props props' : list Node) :
  Forall shaped props ->
  convert_properties
    (fun prop =>
       toAssignable_node prop isBinding "object destructuring pattern")
    props = (props', None) ->
  forall2b (conversion_shape isBinding) props props' = true.
Proof.
  intros HF. revert props'.
  induction HF as [|p rest Hp _ IH]; intros props' H; simpl in H.
  - injection H as <-. reflexivity.
  - destruct (is_type p "ObjectMethod").
    { destruct (key p); [destruct (_ || _)|]; discriminate H. }
    destruct (toAssignable_node p _ _) as [p' [e|]] eqn:Hc; [discriminate H|].
    destruct (convert_properties _ rest) as [rest' c'].
    injection H as <- ->. simpl.
    rewrite (Hp _ _ Hc). simpl. apply IH. reflexivity.
Qed.

Lemma convert_loop_shape (contextDescription : string)
    (pre rest l' : list (option Node)) :
  Forall (fun e => forall x, e = Some x -> shaped x) pre ->
  convert_loop (fun n => toAssignable_node n isBinding contextDescription)
    (pre ++ rest) (length pre) = (l', None) ->
  exists pre', l' = pre' ++ rest /\ forall2b entry_shape pre pre' = true.
Proof.
  intros HF. revert l'.
  induction HF as [|e pre He _ IH]; intros l' H.
  - simpl in H. rewrite convert_loop_0 in H. injection H as <-.
    exists []. split; reflexivity.
  - simpl in H. destruct e as [n|].
    + destruct (is_type n "SpreadElement"); [discriminate H|].
      destruct (toAssignable_node n _ _) as [n' [e|]] eqn:Hc;
        [discriminate H|].
      destruct (convert_loop _ (pre ++ rest) (length pre)) as [r' c'] eqn:Hr.
      injection H as <- ->.
      destruct (IH _ eq_refl) as (pre' & -> & Hs).
      exists (Some n' :: pre'). split; [reflexivity|].
      simpl. rewrite (He n eq_refl _ _ Hc). exact Hs.
    + destruct (convert_loop _ (pre ++ rest) (length pre)) as [r' c'] eqn:Hr.
      injection H as <- ->.
      destruct (IH _ eq_refl) as (pre' & -> & Hs).
      exists (None :: pre'). split; [reflexivity|]. exact Hs.
Qed.

Lemma rest_element_shape (l : Node) :
  is_type l "RestElement" = true -> conversion_shape isBinding l l = true.
Proof.
  intros H. apply is_type_true in H.
  rewrite conversion_shape_unfold.
  unfold converted_discriminant, pattern_family. known_type H.
  rewrite H. reflexivity.
Qed.

Lemma convert_last_elt_shape (contextDescription : string)
    (last last' : option Node) :
  (forall x, last = Some x -> shaped x) ->
  convert_last_elt
    (fun n => toAssignable_node n isBinding contextDescription) last
    = (last', None, true) ->
  entry_shape last last' = true.
Proof.
  intros Hs H. unfold convert_last_elt in H.
  destruct last as [l|]; [|discriminate H].
  specialize (Hs l eq_refl).
  destruct (is_type l "RestElement") eqn:Hr.
  { injection H as <-. simpl. apply rest_element_shape. assumption. }
  destruct (is_type l "SpreadElement") eqn:Hsp; [|discriminate H].
  cbn [argument set_type] in H.
  destruct (argument l) as [arg|] eqn:Harg; [|discriminate H].
  destruct (toAssignable_node arg _ _) as [arg' [e|]] eqn:Hc;
    [discriminate H|].
  destruct (_ && _); [discriminate H|].
  injection H as <-. simpl.
  apply (Hs contextDescription).
  rewrite toAssignable_node_unfold.
  apply is_type_true in Hsp. known_type Hsp.
  cbn [argument set_type]. rewrite Harg. simpl. rewrite Hc. reflexivity.
Qed.

Lemma toAssignableList_shape (contextDescription : string)
    (exprList exprList' : list (option Node)) :
  Forall (fun e => forall x, e = Some x -> shaped x) exprList ->
  toAssignableList exprList isBinding contextDescription
    = (exprList', None) ->
  forall2b entry_shape exprList exprList' = true.
Proof.
  destruct exprList as [|e0 l0] using rev_ind.
  - intros _ H. injection H as <-. reflexivity.
  - clear IHl0. rename l0 into pre, e0 into last. intros HF H.
    apply Forall_app in HF as [Hpre Hlast].
    apply Forall_inv in Hlast.
    rewrite toAssignableList_snoc in H.
    destruct (convert_last_elt _ last) as [[last' c] dec] eqn:Hl.
    destruct c as [e|]; [discriminate H|].
    destruct dec.
    + apply convert_loop_shape in H; [|assumption].
      destruct H as (pre' & -> & Hs).
      apply forall2b_snoc; [assumption|].
      apply (convert_last_elt_shape _ _ _ Hlast Hl).
    + apply convert_last_elt_kept in Hl. subst last'.
      rewrite <- (app_nil_r (pre ++ [last])) in H.
      replace (S (length pre)) with (length (pre ++ [last])) in H
        by (rewrite length_app; simpl; lia).
      apply convert_loop_shape in H.
      * destruct H as (l' & -> & Hs). rewrite app_nil_r. exact Hs.
      * apply Forall_app. split; [assumption|]. constructor; [assumption|].
        constructor.
Qed.

End ConversionShape.

(** The conversion of a node writes none of its [key], [left] and
    [right] fields. *)
Lemma toAssignable_node_keeps (node node' : Node) (isBinding : bool)
    (contextDescription : string) (c : completion) :
  toAssignable_node node isBinding contextDescription = (node', c) ->
  key node' = key node /\ left node' = left node /\ right node' = right node.
Proof.
  rewrite toAssignable_node_unfold. unfold toAssignable. cbv zeta.
  cbn [argument elements set_type].
  repeat match goal with
         | |- context [if ?b then _ else _] => destruct b
         | |- context [match ?o with Some _ => _ | None => _ end] =>
           destruct o eqn:?
         | |- context [let '(_, _) := ?p in _] => destruct p
         end;
    intros [= <- _]; repeat split; solve [reflexivity | assumption].
Qed.

(** C1, as the code has it: when toAssignable returns on a node, the
    discriminant of the result is in the pattern family, or is
    ObjectProperty, or is MemberExpression with isBinding false; and the
    same holds, in turn, of every node the conversion has gone into: the
    properties of a converted ObjectExpression, the value of an
    ObjectProperty, the argument of a converted SpreadElement and the
    entries of a converted ArrayExpression.  The [key], [left] and
    [right] children of the node are given back as they were: the
    conversion does not go into the children of a converted
    AssignmentExpression. *)
Theorem toAssignable_conversion_shape
    (node node' : Node) (isBinding : bool) (contextDescription : string) :
  toAssignable_node node isBinding contextDescription = (node', None) ->
  converted_discriminant isBinding node' = true
  /\ conversion_shape isBinding node node' = true
  /\ key node' = key node /\ left node' = left node
  /\ right node' = right node.
Proof.
  intros H0.
  assert (Hshape : conversion_shape isBinding node node' = true);
    [|split; [|split; [exact Hshape|]]].
  2: { rewrite conversion_shape_unfold in Hshape.
       apply andb_true_iff in Hshape. tauto. }
  2: { exact (toAssignable_node_keeps _ _ _ _ _ H0). }
  revert contextDescription node' H0.
  induction node as [n IHv IHa IHp IHe] using Node_children_ind.
  intros contextDescription n' H.
  rewrite toAssignable_node_unfold in H.
  rewrite conversion_shape_unfold.
  destruct (already_pattern n) eqn:Hpat.
  { injection H as <-.
    rewrite (already_pattern_converted _ _ Hpat). reflexivity. }
  destruct (is_type n "ObjectExpression") eqn:Hobj.
  { cbv zeta in H. destruct (properties n) as [ps|] eqn:Hps; [|discriminate H].
    destruct (convert_properties _ ps) as [ps' c] eqn:Hc.
    injection H as <- ->. simpl.
    apply (convert_properties_shape _ _ _ (IHp ps eq_refl) Hc). }
  destruct (is_type n "ObjectProperty") eqn:Hprop.
  { unfold toAssignable in H.
    unfold converted_discriminant.
    destruct (value n) as [v|] eqn:Hv.
    - destruct (toAssignable_node v _ _) as [v' c] eqn:Hc.
      injection H as <- ->.
      replace (is_type (set_value n (Some v')) "ObjectProperty")
        with true by (symmetry; exact Hprop).
      rewrite orb_true_r. simpl. apply (IHv v eq_refl _ _ Hc).
    - injection H as <-.
      replace (is_type (set_value n None) "ObjectProperty")
        with true by (symmetry; exact Hprop).
      rewrite orb_true_r. reflexivity. }
  destruct (is_type n "SpreadElement") eqn:Hsp.
  { unfold toAssignable in H. cbv zeta in H. cbn [argument set_type] in H.
    destruct (argument n) as [a|] eqn:Ha.
    - destruct (toAssignable_node a _ _) as [a' c] eqn:Hc.
      injection H as <- ->. simpl. apply (IHa a eq_refl _ _ Hc).
    - injection H as <-. reflexivity. }
  destruct (is_type n "ArrayExpression") eqn:Harr.
  { cbv zeta in H. cbn [elements set_type] in H.
    destruct (elements n) as [es|] eqn:Hes; [|discriminate H].
    destruct (toAssignableList es _ _) as [es' c] eqn:Hc.
    injection H as <- ->. simpl.
    apply (toAssignableList_shape _ _ _ _ (IHe es eq_refl) Hc). }
  destruct (is_type n "AssignmentExpression") eqn:Hasg.
  { destruct (option_eqb _ _).
    - injection H as <-. reflexivity.
    - destruct (left n); discriminate H. }
  destruct (is_type n "MemberExpression" && negb isBinding) eqn:Hmem.
  { injection H as <-. unfold converted_discriminant.
    rewrite Hmem, orb_true_r. reflexivity. }
  discriminate H.
Qed.

Lemma toAssignable_conversion_shape_witness :
  let a := Identifier 1 2 "a" in
  let b := Identifier 5 6 "b" in
  let c := Identifier 8 9 "c" in
  let d := Identifier 15 16 "d" in
  let prop := ObjectProperty 5 9 b c in
  let node :=
    ArrayExpression 0 17
      [Some a; None; Some (ObjectExpression 4 10 [prop]);
       Some (SpreadElement 12 16 d)] in
  let node' :=
    mkNode "ArrayPattern" 0 17 "" None None None None None None None None
      (Some [Some a; None;
             Some (mkNode "ObjectPattern" 4 10 "" None None None None None
                          None None (Some [prop]) None);
             Some (RestElement 12 16 d)]) in
  toAssignable_node node false "assignment expression" = (node', None)
  /\ converted_discriminant false node' = true
  /\ conversion_shape false node node' = true
  /\ key node' = key node /\ left node' = left node
  /\ right node' = right node.
Proof.
  intros a b c d prop node node'. split; [reflexivity|].
  apply (toAssignable_conversion_shape node node' false
           "assignment expression").
  reflexivity.
Defined.

(** C1 as the specification words it does not hold.  The property of a
    converted [{a: b}] keeps the discriminant ObjectProperty, which is
    not in the pattern family; and the left child of a converted
    [a.b = 1] is still a MemberExpression when the conversion is for a
    binding. *)
Lemma toAssignable_result_outside_pattern_family :
  let prop := ObjectProperty 1 5 (Identifier 1 2 "a") (Identifier 4 5 "b") in
  let object' :=
    mkNode "ObjectPattern" 0 6 "" None None None None None None None
           (Some [prop]) None in
  let member := MemberExpression 1 4 in
  let one := NumericLiteral 7 8 in
  let assignment' :=
    mkNode "AssignmentPattern" 1 8 "" None None None None None
           (Some member) (Some one) None None in
  (toAssignable_node (ObjectExpression 0 6 [prop]) false "x"
     = (object', None)
   /\ properties object' = Some [prop]
   /\ pattern_or_member false prop = false
   /\ every_node (pattern_or_member false) object' = false)
  /\ (toAssignable_node (AssignmentExpression 1 8 "=" member one) true "x"
       = (assignment', None)
     /\ left assignment' = Some member
     /\ pattern_or_member true member = false
     /\ every_node (pattern_or_member true) assignment' = false).
Proof. repeat split. Qed.

(** * Further properties *)

(** ** Nodes that toAssignable rejects, and converting twice *)

Lemma not_in_discriminants (t : string) (l : list string) :
  ~ In t l -> forallb (fun u => negb (String.eqb t u)) l = true.
Proof.
  induction l as [|u l IH]; intros H; simpl; [reflexivity|].
  apply andb_true_iff. split.
  - apply negb_true_iff, String.eqb_neq. intros ->. apply H. left. reflexivity.
  - apply IH. intros Hin. apply H. right. exact Hin.
Qed.

(** X1: a node whose discriminant has no arm in toAssignable (a literal,
    a call, a RestElement, an ObjectMethod, ...), and a MemberExpression
    when isBinding is true, is rejected at its own start with the
    invalid-left-hand-side message, and is left as it was.  The message
    ends in [" in " + contextDescription], or, with an empty description,
    in ["expression"] glued to the text before it. *)
Theorem toAssignable_rejects
    (node : Node) (isBinding : bool) (contextDescription : string) :
  ~ In (type node) toAssignable_discriminants
  \/ (type node = "MemberExpression" /\ isBinding = true) ->
  toAssignable_node node isBinding contextDescription
  = (node,
     Some (Raise (start node)
             (if String.eqb contextDescription ""
              then "Invalid left-hand sideexpression"
              else "Invalid left-hand side in " +:+ contextDescription))).
Proof.
  intros H. rewrite toAssignable_node_unfold.
  assert (Hmsg : invalid_lhs_message contextDescription
                 = if String.eqb contextDescription ""
                   then "Invalid left-hand sideexpression"
                   else "Invalid left-hand side in " +:+ contextDescription).
  { unfold invalid_lhs_message.
    destruct (String.eqb contextDescription ""); reflexivity. }
  destruct H as [H|[H ->]].
  - apply not_in_discriminants in H. simpl in H.
    rewrite !andb_true_iff, !negb_true_iff in H.
    unfold already_pattern, is_type.
    destruct H as (-> & -> & -> & -> & -> & -> & -> & -> & -> & -> & -> & _).
    simpl. unfold raise. rewrite Hmsg. reflexivity.
  - known_type H. unfold raise. rewrite Hmsg. reflexivity.
Qed.

Lemma toAssignable_rejects_witness :
  toAssignable_node (RestElement 1 5 (Identifier 4 5 "a")) false
                    "array destructuring pattern"
  = (RestElement 1 5 (Identifier 4 5 "a"),
     Some (Raise 1 "Invalid left-hand side in array destructuring pattern"))
  /\ toAssignable_node (MemberExpression 0 3) true ""
  = (MemberExpression 0 3, Some (Raise 0 "Invalid left-hand sideexpression")).
Proof.
  split.
  - apply (toAssignable_rejects (RestElement 1 5 (Identifier 4 5 "a")) false
             "array destructuring pattern").
    left. simpl. intuition discriminate.
  - apply (toAssignable_rejects (MemberExpression 0 3) true "").
    right. split; reflexivity.
Defined.

(** X2: converting twice.  When toAssignable returns on a node that is
    not itself a SpreadElement or an ObjectProperty, converting the
    result again, for the same isBinding and under any description,
    returns it unchanged.  The result of converting a SpreadElement is a
    RestElement, and converting that again fails. *)
Theorem toAssignable_twice
    (node node' : Node) (isBinding : bool) (contextDescription : string) :
  toAssignable_node node isBinding contextDescription = (node', None) ->
  (type node <> "SpreadElement" -> type node <> "ObjectProperty" ->
   forall description',
     toAssignable_node node' isBinding description' = (node', None))
  /\ (type node = "SpreadElement" ->
      forall description',
        toAssignable_node node' isBinding description'
        = (node', raise (start node) (invalid_lhs_message description'))).
Proof.
  intros H. rewrite toAssignable_node_unfold in H. split.
  - intros Hsp Hprop description'.
    apply is_type_false in Hsp, Hprop. rewrite Hsp, Hprop in H.
    rewrite toAssignable_node_unfold.
    assert (Hpat : forall m, type m = "ObjectPattern"
                             \/ type m = "ArrayPattern"
                             \/ type m = "AssignmentPattern" ->
                   already_pattern m = true).
    { intros m [Hm|[Hm|Hm]]; known_type Hm; reflexivity. }
    destruct (already_pattern node) eqn:Hp.
    { injection H as <-. rewrite Hp. reflexivity. }
    destruct (is_type node "ObjectExpression").
    { cbv zeta in H. destruct (properties node); [|discriminate H].
      destruct (convert_properties _ _) as [ps' c].
      injection H as <- _. rewrite Hpat; [reflexivity|]. left. reflexivity. }
    destruct (is_type node "ArrayExpression").
    { cbv zeta in H. cbn [elements set_type] in H.
      destruct (elements node); [|discriminate H].
      destruct (toAssignableList _ _ _) as [es' c].
      injection H as <- _. rewrite Hpat; [reflexivity|].
      right. left. reflexivity. }
    destruct (is_type node "AssignmentExpression").
    { destruct (option_eqb _ _).
      - injection H as <-. rewrite Hpat; [reflexivity|].
        right. right. reflexivity.
      - destruct (left node); discriminate H. }
    destruct (is_type node "MemberExpression" && negb isBinding) eqn:Hm;
      [|discriminate H].
    injection H as <-. rewrite Hp, Hm.
    apply andb_true_iff in Hm as [Hm _]. apply is_type_true in Hm.
    known_type Hm. reflexivity.
  - intros Hsp description'. known_type_in Hsp H.
    unfold toAssignable in H. cbv zeta in H. cbn [argument set_type] in H.
    assert (Hn' : type node' = "RestElement" /\ start node' = start node).
    { destruct (argument node) as [a|].
      - destruct (toAssignable_node a _ _) as [a' c].
        injection H as <- _. split; reflexivity.
      - injection H as <-. split; reflexivity. }
    destruct Hn' as [Ht Hs].
    rewrite toAssignable_node_unfold. known_type Ht. rewrite Hs. reflexivity.
Qed.

Lemma toAssignable_twice_witness :
  let a := Identifier 1 2 "a" in
  let array' := mkNode "ArrayPattern" 0 3 "" None None None None None None
                       None None (Some [Some a]) in
  (toAssignable_node (ArrayExpression 0 3 [Some a]) true "x" = (array', None)
   /\ toAssignable_node array' true "y" = (array', None))
  /\ (toAssignable_node (SpreadElement 0 5 a) false "x"
       = (RestElement 0 5 a, None)
     /\ toAssignable_node (RestElement 0 5 a) false "y"
       = (RestElement 0 5 a, Some (Raise 0 "Invalid left-hand side in y"))).
Proof.
  intros a array'. split; (split; [reflexivity|]).
  - apply (proj1 (toAssignable_twice (ArrayExpression 0 3 [Some a]) array'
                    true "x" eq_refl)); discriminate.
  - apply (proj2 (toAssignable_twice (SpreadElement 0 5 a)
                    (RestElement 0 5 a) false "x" eq_refl) eq_refl).
Defined.

(** ** What the conversion leaves in place *)

Lemma erase_unfold (n : Node) :
  erase n =
  mkNode "" (start n) (end_ n) (name n) (kind n) None
         (option_map erase (key n))
         (option_map erase (value n))
         (option_map erase (argument n))
         (option_map erase (left n))
         (option_map erase (right n))
         (option_map (List.map erase) (properties n))
         (option_map (List.map (option_map erase)) (elements n)).
Proof. destruct n. reflexivity. Qed.

Lemma erase_set_type (n : Node) (t : string) : erase (set_type n t) = erase n.
Proof. rewrite !erase_unfold. reflexivity. Qed.

Lemma erase_delete_operator (n : Node) : erase (delete_operator n) = erase n.
Proof. rewrite !erase_unfold. reflexivity. Qed.

Lemma erase_set_value (n : Node) (v : option Node) :
  option_map erase v = option_map erase (value n) ->
  erase (set_value n v) = erase n.
Proof. intros H. rewrite !erase_unfold. simpl. rewrite H. reflexivity. Qed.

Lemma erase_set_argument (n : Node) (a : option Node) :
  option_map erase a = option_map erase (argument n) ->
  erase (set_argument n a) = erase n.
Proof. intros H. rewrite !erase_unfold. simpl. rewrite H. reflexivity. Qed.

Lemma erase_set_properties (n : Node) (ps : option (list Node)) :
  option_map (List.map erase) ps
    = option_map (List.map erase) (properties n) ->
  erase (set_properties n ps) = erase n.
Proof. intros H. rewrite !erase_unfold. simpl. rewrite H. reflexivity. Qed.

Lemma erase_set_elements (n : Node) (es : option (list (option Node))) :
  option_map (List.map (option_map erase)) es
    = option_map (List.map (option_map erase)) (elements n) ->
  erase (set_elements n es) = erase n.
Proof. intros H. rewrite !erase_unfold. simpl. rewrite H. reflexivity. Qed.

Section LastEntry.

Variable isBinding : bool.
Variable contextDescription : string.

(** The state in which the treatment of the last entry leaves it: for a
    SpreadElement, the state in which [toAssignable] leaves it. *)
Lemma convert_last_elt_state (last : option Node) :
  (convert_last_elt
     (fun n => toAssignable_node n isBinding contextDescription) last).1.1
  = match last with
    | Some l =>
      if is_type l "RestElement" then last
      else if is_type l "SpreadElement"
           then Some (toAssignable_node l isBinding contextDescription).1
           else last
    | None => None
    end.
Proof.
  destruct last as [l|]; [|reflexivity]. unfold convert_last_elt.
  destruct (is_type l "RestElement") eqn:Hr; [reflexivity|].
  destruct (is_type l "SpreadElement") eqn:Hs; [|reflexivity].
  rewrite (toAssignable_node_unfold l).
  apply is_type_true in Hs. known_type Hs.
  unfold toAssignable. cbv zeta. cbn [argument set_type].
  destruct (argument l) as [arg|] eqn:Ha.
  - destruct (toAssignable_node arg _ _) as [arg' [e|]]; [reflexivity|].
    destruct (_ && _); reflexivity.
  - simpl. f_equal. destruct l. simpl in Ha. subst. reflexivity.
Qed.

End LastEntry.

Section EraseFacts.

Variable isBinding : bool.

Let kept (x : Node) : Prop :=
  forall contextDescription,
    erase (toAssignable_node x isBinding contextDescription).1 = erase x.

Lemma convert_properties_erase (props : list Node) :
  Forall kept props ->
  List.map erase
    (convert_properties
       (fun prop =>
          toAssignable_node prop isBinding "object destructuring pattern")
       props).1
  = List.map erase props.
Proof.
  induction 1 as [|p rest Hp _ IH]; [reflexivity|]. simpl.
  destruct (is_type p "ObjectMethod").
  { destruct (key p); [destruct (_ || _)|]; reflexivity. }
  specialize (Hp "object destructuring pattern").
  destruct (toAssignable_node p _ _) as [p' [e|]]; simpl in Hp.
  - simpl. rewrite Hp. reflexivity.
  - destruct (convert_properties _ rest) as [rest' c']. simpl in *.
    rewrite Hp, IH. reflexivity.
Qed.

Lemma convert_loop_erase (contextDescription : string)
    (exprList : list (option Node)) (todo : nat) :
  Forall (fun e => forall x, e = Some x -> kept x) (take todo exprList) ->
  List.map (option_map erase)
    (convert_loop (fun n => toAssignable_node n isBinding contextDescription)
                  exprList todo).1
  = List.map (option_map erase) exprList.
Proof.
  revert exprList.
  induction todo as [|todo IH]; intros exprList HF.
  - rewrite convert_loop_0. reflexivity.
  - destruct exprList as [|e rest]; [reflexivity|].
    simpl in HF. apply Forall_cons in HF as [He HF].
    specialize (IH rest HF). simpl. destruct e as [n|].
    + destruct (is_type n "SpreadElement"); [reflexivity|].
      specialize (He n eq_refl contextDescription).
      destruct (toAssignable_node n _ _) as [n' [e|]]; simpl in He.
      * simpl. rewrite He. reflexivity.
      * destruct (convert_loop _ rest todo) as [rest' c']. simpl in *.
        rewrite He, IH. reflexivity.
    + destruct (convert_loop _ rest todo) as [rest' c']. simpl in *.
      rewrite IH. reflexivity.
Qed.

Lemma convert_last_elt_erase (contextDescription : string)
    (last : option Node) :
  (forall x, last = Some x -> kept x) ->
  option_map erase
    (convert_last_elt
       (fun n => toAssignable_node n isBinding contextDescription) last).1.1
  = option_map erase last.
Proof.
  intros H. rewrite convert_last_elt_state.
  destruct last as [l|]; [|reflexivity].
  destruct (is_type l "RestElement"); [reflexivity|].
  destruct (is_type l "SpreadElement"); [|reflexivity].
  simpl. rewrite (H l eq_refl). reflexivity.
Qed.

Lemma toAssignableList_erase_under (contextDescription : string)
    (exprList : list (option Node)) :
  Forall (fun e => forall x, e = Some x -> kept x) exprList ->
  List.map (option_map erase)
    (toAssignableList exprList isBinding contextDescription).1
  = List.map (option_map erase) exprList.
Proof.
  destruct exprList as [|last pre _] using rev_ind; [reflexivity|].
  intros HF. apply Forall_app in HF as [Hpre Hlast].
  apply Forall_inv in Hlast.
  rewrite toAssignableList_snoc.
  pose proof (convert_last_elt_erase contextDescription last Hlast) as Hl.
  destruct (convert_last_elt _ last) as [[last' c] dec] eqn:Hc.
  simpl in Hl.
  assert (Hmap : List.map (option_map erase) (pre ++ [last'])
                 = List.map (option_map erase) (pre ++ [last])).
  { rewrite !List.map_app. simpl. rewrite Hl. reflexivity. }
  destruct c as [e|]; [exact Hmap|].
  rewrite convert_loop_erase; [exact Hmap|].
  destruct dec.
  - rewrite take_app_length. assumption.
  - apply convert_last_elt_kept in Hc. subst last'.
    rewrite take_ge by (rewrite length_app; simpl; lia).
    apply Forall_app. split; [assumption|]. constructor; [assumption|].
    constructor.
Qed.

End EraseFacts.

Lemma toAssignable_node_erase
    (node : Node) (isBinding : bool) (contextDescription : string) :
  erase (toAssignable_node node isBinding contextDescription).1 = erase node.
Proof.
  revert contextDescription.
  induction node as [n IHv IHa IHp IHe] using Node_children_ind.
  intros contextDescription. rewrite toAssignable_node_unfold.
  destruct (already_pattern n); [reflexivity|].
  destruct (is_type n "ObjectExpression").
  { cbv zeta. destruct (properties n) as [ps|] eqn:Hps.
    - pose proof (convert_properties_erase isBinding ps (IHp ps eq_refl))
        as Hc.
      destruct (convert_properties _ ps) as [ps' c]. cbn [fst] in *.
      rewrite erase_set_properties; [apply erase_set_type|].
      simpl. rewrite Hps. simpl. rewrite Hc. reflexivity.
    - apply erase_set_type. }
  destruct (is_type n "ObjectProperty").
  { unfold toAssignable. destruct (value n) as [v|] eqn:Hv.
    - specialize (IHv v eq_refl contextDescription).
      destruct (toAssignable_node v _ _) as [v' c]. cbn [fst] in *.
      apply erase_set_value. rewrite Hv. simpl. rewrite IHv. reflexivity.
    - cbn [fst]. apply erase_set_value. rewrite Hv. reflexivity. }
  destruct (is_type n "SpreadElement").
  { unfold toAssignable. cbv zeta. cbn [argument set_type].
    destruct (argument n) as [a|] eqn:Ha.
    - specialize (IHa a eq_refl contextDescription).
      destruct (toAssignable_node a _ _) as [a' c]. cbn [fst] in *.
      rewrite erase_set_argument; [apply erase_set_type|].
      simpl. rewrite Ha. simpl. rewrite IHa. reflexivity.
    - cbn [fst]. rewrite erase_set_argument; [apply erase_set_type|].
      simpl. rewrite Ha. reflexivity. }
  destruct (is_type n "ArrayExpression").
  { cbv zeta. cbn [elements set_type].
    destruct (elements n) as [es|] eqn:Hes.
    - pose proof (toAssignableList_erase_under isBinding contextDescription
                    es (IHe es eq_refl)) as Hc.
      destruct (toAssignableList es _ _) as [es' c]. cbn [fst] in *.
      rewrite erase_set_elements; [apply erase_set_type|].
      simpl. rewrite Hes. simpl. rewrite Hc. reflexivity.
    - apply erase_set_type. }
  destruct (is_type n "AssignmentExpression").
  { destruct (option_eqb _ _).
    - cbn [fst]. rewrite erase_delete_operator. apply erase_set_type.
    - destruct (left n); reflexivity. }
  destruct (_ && _); reflexivity.
Qed.

(** X3: the conversion writes discriminants and removes operator fields,
    nothing else.  With these two fields forgotten everywhere, the node
    toAssignable leaves behind is the node it was given: positions,
    names, kinds, the children and their order are kept, whether the call
    returns or fails. *)
Theorem toAssignable_erase
    (node : Node) (isBinding : bool) (contextDescription : string) :
  erase (toAssignable_node node isBinding contextDescription).1 = erase node.
Proof. apply toAssignable_node_erase. Qed.

(** X4: toAssignableList gives back a list of the same length with the
    holes where they were, and in each entry only discriminants and
    operator fields may differ from what was given, whether the call
    returns or fails. *)
Theorem toAssignableList_erase
    (exprList : list (option Node)) (isBinding : bool)
    (contextDescription : string) :
  let exprList' := (toAssignableList exprList isBinding contextDescription).1 in
  List.map (option_map erase) exprList' = List.map (option_map erase) exprList
  /\ length exprList' = length exprList
  /\ (forall i, exprList' !! i = Some None <-> exprList !! i = Some None).
Proof.
  intros exprList'.
  assert (H : List.map (option_map erase) exprList'
              = List.map (option_map erase) exprList).
  { apply toAssignableList_erase_under.
    apply Forall_forall. intros e _ x _ description.
    apply toAssignable_node_erase. }
  split; [exact H|]. split.
  - rewrite <- (length_map (option_map erase) exprList'), H.
    apply length_map.
  - intros i.
    assert (Hi : option_map erase <$> exprList' !! i
                 = option_map erase <$> exprList !! i).
    { rewrite <- !list_lookup_fmap.
      change (List.map (option_map erase) exprList' !! i
              = List.map (option_map erase) exprList !! i).
      rewrite H. reflexivity. }
    destruct (exprList' !! i) as [[x|]|], (exprList !! i) as [[y|]|];
      simpl in Hi; split; intros E; congruence.
Qed.

(** ** What a conversion that returns depends on *)

Section SuccessTransfer.

Variables isBinding isBinding' : bool.

Hypothesis weaker : isBinding' = true -> isBinding = true.

Let transfers (x : Node) : Prop :=
  forall description description' x',
    toAssignable_node x isBinding description = (x', None) ->
    toAssignable_node x isBinding' description' = (x', None).

Lemma convert_properties_transfer (props props' : list Node) :
  Forall transfers props ->
  convert_properties
    (fun prop =>
       toAssignable_node prop isBinding "object destructuring pattern")
    props = (props', None) ->
  convert_properties
    (fun prop =>
       toAssignable_node prop isBinding' "object destructuring pattern")
    props = (props', None).
Proof.
  intros HF. revert props'.
  induction HF as [|p rest Hp _ IH]; intros props' H; [exact H|].
  simpl in *. destruct (is_type p "ObjectMethod").
  { destruct (key p); [destruct (_ || _)|]; discriminate H. }
  destruct (toAssignable_node p isBinding _) as [p' [e|]] eqn:Hc;
    [discriminate H|].
  rewrite (Hp _ "object destructuring pattern" _ Hc).
  destruct (convert_properties _ rest) as [rest' c'].
  injection H as <- ->. rewrite (IH rest' eq_refl). reflexivity.
Qed.

Lemma convert_loop_transfer (description description' : string)
    (exprList exprList' : list (option Node)) (todo : nat) :
  Forall (fun e => forall x, e = Some x -> transfers x)
         (take todo exprList) ->
  convert_loop (fun n => toAssignable_node n isBinding description)
               exprList todo = (exprList', None) ->
  convert_loop (fun n => toAssignable_node n isBinding' description')
               exprList todo = (exprList', None).
Proof.
  revert exprList exprList'.
  induction todo as [|todo IH]; intros exprList exprList' HF H.
  - rewrite convert_loop_0 in *. exact H.
  - destruct exprList as [|e rest]; [exact H|].
    simpl in HF. apply Forall_cons in HF as [He HF].
    simpl in *. destruct e as [n|].
    + destruct (is_type n "SpreadElement"); [discriminate H|].
      destruct (toAssignable_node n isBinding _) as [n' [e|]] eqn:Hc;
        [discriminate H|].
      rewrite (He n eq_refl _ description' _ Hc).
      destruct (convert_loop _ rest todo) as [rest' c'] eqn:Hr.
      injection H as <- ->. rewrite (IH _ _ HF Hr). reflexivity.
    + destruct (convert_loop _ rest todo) as [rest' c'] eqn:Hr.
      injection H as <- ->. rewrite (IH _ _ HF Hr). reflexivity.
Qed.

Lemma convert_last_elt_transfer (description description' : string)
    (last last' : option Node) (dec : bool) :
  (forall x, last = Some x -> transfers x) ->
  convert_last_elt (fun n => toAssignable_node n isBinding description) last
    = (last', None, dec) ->
  convert_last_elt (fun n => toAssignable_node n isBinding' description') last
    = (last', None, dec).
Proof.
  intros Hl H. unfold convert_last_elt in *.
  destruct last as [l|]; [|exact H].
  destruct (is_type l "RestElement"); [exact H|].
  destruct (is_type l "SpreadElement") eqn:Hs; [|exact H].
  cbn [argument set_type] in *.
  destruct (argument l) as [arg|] eqn:Ha; [|discriminate H].
  destruct (toAssignable_node arg isBinding _) as [arg' [e|]] eqn:Hc;
    [discriminate H|].
  assert (Hc' : toAssignable_node arg isBinding' description' = (arg', None)).
  { specialize (Hl l eq_refl description description').
    rewrite !(toAssignable_node_unfold l) in Hl.
    apply is_type_true in Hs. known_type_in Hs Hl.
    unfold toAssignable in Hl. cbv zeta in Hl.
    cbn [argument set_type] in Hl. rewrite Ha, Hc in Hl.
    specialize (Hl _ eq_refl).
    destruct (toAssignable_node arg isBinding' _) as [arg'' c''].
    injection Hl as Hl ->.
    subst arg''. reflexivity. }
  rewrite Hc'. exact H.
Qed.

Lemma toAssignableList_transfer (description description' : string)
    (exprList exprList' : list (option Node)) :
  Forall (fun e => forall x, e = Some x -> transfers x) exprList ->
  toAssignableList exprList isBinding description = (exprList', None) ->
  toAssignableList exprList isBinding' description' = (exprList', None).
Proof.
  destruct exprList as [|last pre _] using rev_ind; [intros _ H; exact H|].
  intros HF H. apply Forall_app in HF as [Hpre Hlast].
  apply Forall_inv in Hlast.
  rewrite toAssignableList_snoc in *.
  destruct (convert_last_elt _ last) as [[last' c] dec] eqn:Hc in H.
  destruct c as [e|]; [discriminate H|].
  rewrite (convert_last_elt_transfer _ description' _ _ _ Hlast Hc).
  apply (convert_loop_transfer description); [|exact H].
  destruct dec.
  - rewrite take_app_length. assumption.
  - apply convert_last_elt_kept in Hc. subst last'.
    rewrite take_ge by (rewrite length_app; simpl; lia).
    apply Forall_app. split; [assumption|]. constructor; [assumption|].
    constructor.
Qed.

Lemma toAssignable_node_transfer (node : Node) : transfers node.
Proof.
  induction node as [n IHv IHa IHp IHe] using Node_children_ind.
  intros description description' n' H.
  rewrite toAssignable_node_unfold in *.
  destruct (already_pattern n); [exact H|].
  destruct (is_type n "ObjectExpression").
  { cbv zeta in *. destruct (properties n) as [ps|] eqn:Hps; [|discriminate H].
    destruct (convert_properties _ ps) as [ps' c] eqn:Hc in H.
    injection H as <- ->.
    rewrite (convert_properties_transfer _ _ (IHp ps eq_refl) Hc).
    reflexivity. }
  destruct (is_type n "ObjectProperty").
  { unfold toAssignable in *. destruct (value n) as [v|] eqn:Hv; [|exact H].
    destruct (toAssignable_node v isBinding _) as [v' c] eqn:Hc.
    injection H as <- ->.
    rewrite (IHv v eq_refl _ description' _ Hc). reflexivity. }
  destruct (is_type n "SpreadElement").
  { unfold toAssignable in *. cbv zeta in *. cbn [argument set_type] in *.
    destruct (argument n) as [a|] eqn:Ha; [|exact H].
    destruct (toAssignable_node a isBinding _) as [a' c] eqn:Hc.
    injection H as <- ->.
    rewrite (IHa a eq_refl _ description' _ Hc). reflexivity. }
  destruct (is_type n "ArrayExpression").
  { cbv zeta in *. cbn [elements set_type] in *.
    destruct (elements n) as [es|] eqn:Hes; [|discriminate H].
    destruct (toAssignableList es isBinding _) as [es' c] eqn:Hc.
    injection H as <- ->.
    rewrite (toAssignableList_transfer _ description' _ _
               (IHe es eq_refl) Hc).
    reflexivity. }
  destruct (is_type n "AssignmentExpression").
  { destruct (option_eqb _ _); [exact H|].
    destruct (left n); discriminate H. }
  destruct (is_type n "MemberExpression"); [|discriminate H].
  destruct isBinding; [discriminate H|].
  destruct isBinding'; [discriminate (weaker eq_refl)|]. exact H.
Qed.

End SuccessTransfer.

(** X5: the description only words the error messages.  When
    toAssignable returns under one description, it returns the same node
    under any other. *)
Theorem toAssignable_description_irrelevant
    (node node' : Node) (isBinding : bool)
    (contextDescription description' : string) :
  toAssignable_node node isBinding contextDescription = (node', None) ->
  toAssignable_node node isBinding description' = (node', None).
Proof.
  apply (toAssignable_node_transfer isBinding isBinding (fun H => H)).
Qed.

Lemma toAssignable_description_irrelevant_witness :
  let node := ArrayExpression 0 8 [Some (Identifier 1 2 "a");
                                   Some (SpreadElement 4 8
                                           (Identifier 7 8 "b"))] in
  let node' := mkNode "ArrayPattern" 0 8 "" None None None None None None
                      None None
                      (Some [Some (Identifier 1 2 "a");
                             Some (RestElement 4 8 (Identifier 7 8 "b"))]) in
  toAssignable_node node false "assignment expression" = (node', None)
  /\ toAssignable_node node false "" = (node', None).
Proof.
  intros node node'. split; [reflexivity|].
  apply (toAssignable_description_irrelevant node node' false
           "assignment expression" "").
  reflexivity.
Defined.

(** X6: a binding target is an assignment target.  When toAssignable
    returns with isBinding true, it returns the same node with isBinding
    false.  (The converse fails on a MemberExpression.) *)
Theorem toAssignable_binding_then_assignment
    (node node' : Node) (contextDescription : string) :
  toAssignable_node node true contextDescription = (node', None) ->
  toAssignable_node node false contextDescription = (node', None).
Proof.
  apply (toAssignable_node_transfer true false).
  intros H. discriminate H.
Qed.

Lemma toAssignable_binding_then_assignment_witness :
  let prop := ObjectProperty 1 5 (Identifier 1 2 "a") (Identifier 4 5 "b") in
  let node' := mkNode "ObjectPattern" 0 6 "" None None None None None None
                      None (Some [prop]) None in
  toAssignable_node (ObjectExpression 0 6 [prop]) true "x" = (node', None)
  /\ toAssignable_node (ObjectExpression 0 6 [prop]) false "x"
     = (node', None).
Proof.
  intros prop node'. split; [reflexivity|].
  apply (toAssignable_binding_then_assignment
           (ObjectExpression 0 6 [prop]) node' "x").
  reflexivity.
Defined.

(** X7: the same for lists.  When toAssignableList returns, it returns
    the same list under any other description, and also with isBinding
    lowered from true to false. *)
Theorem toAssignableList_success_transfers
    (exprList exprList' : list (option Node)) (isBinding isBinding' : bool)
    (contextDescription description' : string) :
  (isBinding' = true -> isBinding = true) ->
  toAssignableList exprList isBinding contextDescription
    = (exprList', None) ->
  toAssignableList exprList isBinding' description' = (exprList', None).
Proof.
  intros Hb. apply (toAssignableList_transfer isBinding isBinding').
  apply Forall_forall. intros e _ x _.
  apply (toAssignable_node_transfer isBinding isBinding' Hb).
Qed.

Lemma toAssignableList_success_transfers_witness :
  let exprList := [Some (Identifier 1 2 "a"); None;
                   Some (SpreadElement 6 10 (Identifier 9 10 "r"))] in
  let exprList' := [Some (Identifier 1 2 "a"); None;
                    Some (RestElement 6 10 (Identifier 9 10 "r"))] in
  toAssignableList exprList true "arrow function parameters"
    = (exprList', None)
  /\ toAssignableList exprList false "" = (exprList', None).
Proof.
  intros exprList exprList'. split; [reflexivity|].
  apply (toAssignableList_success_transfers exprList exprList' true false
           "arrow function parameters" "").
  - intros H. discriminate H.
  - reflexivity.
Defined.

(** ** Induction on nodes, with children and grandchildren *)

Lemma Node_child_ind (P : Node -> Prop) :
  (forall n, (forall c, child n c -> P c) -> P n) -> forall n, P n.
Proof.
  intros step. fix rec 1.
  intros [ty st en nm kd op ky vl ar lf rt ps es].
  apply step. unfold child. simpl.
  intros c [H|[H|[H|[H|[H|[(l & H & Hin)|(l & H & Hin)]]]]]].
  - destruct ky as [x|]; [|discriminate H]. injection H as <-. apply rec.
  - destruct vl as [x|]; [|discriminate H]. injection H as <-. apply rec.
  - destruct ar as [x|]; [|discriminate H]. injection H as <-. apply rec.
  - destruct lf as [x|]; [|discriminate H]. injection H as <-. apply rec.
  - destruct rt as [x|]; [|discriminate H]. injection H as <-. apply rec.
  - destruct ps as [l0|]; [|discriminate H]. injection H as <-.
    assert (HF : Forall P l0).
    { clear Hin. revert l0. fix recl 1. intros [|p l0]; constructor.
      - apply rec.
      - apply recl. }
    exact (proj1 (List.Forall_forall P l0) HF c Hin).
  - destruct es as [l0|]; [|discriminate H]. injection H as <-.
    assert (HF : Forall (fun e => forall x, e = Some x -> P x) l0).
    { clear Hin. revert l0. fix recl 1. intros [|[x|] l0]; constructor.
      - intros y [= <-]. apply rec.
      - apply recl.
      - intros y [=].
      - apply recl. }
    exact (proj1 (List.Forall_forall _ l0) HF (Some c) Hin c eq_refl).
Qed.

Lemma Node_grandchild_ind (P : Node -> Prop) :
  (forall n,
      (forall c, child n c -> P c /\ forall c', child c c' -> P c') -> P n) ->
  forall n, P n.
Proof.
  intros step n.
  enough (H : P n /\ forall c, child n c -> P c) by exact (proj1 H).
  induction n as [n IH] using Node_child_ind.
  assert (Hc : forall c, child n c -> P c) by (intros c Hc; apply IH, Hc).
  split; [|exact Hc].
  apply step. intros c Hchild. split; [apply Hc, Hchild|].
  apply (IH c Hchild).
Qed.

Lemma child_value (n c : Node) : value n = Some c -> child n c.
Proof. unfold child. auto. Qed.

Lemma child_argument (n c : Node) : argument n = Some c -> child n c.
Proof. unfold child. auto. Qed.

Lemma child_left (n c : Node) : left n = Some c -> child n c.
Proof. unfold child. auto 6. Qed.

Lemma child_property (n c : Node) (ps : list Node) :
  properties n = Some ps -> In c ps -> child n c.
Proof. unfold child. intros H Hin. do 5 right. left. eauto. Qed.

Lemma child_element (n c : Node) (es : list (option Node)) :
  elements n = Some es -> In (Some c) es -> child n c.
Proof. unfold child. intros H Hin. do 6 right. eauto. Qed.

(** ** The clash map under checkLVal *)

Lemma marks_kept_refl (m : option ClashMap) : marks_kept m m.
Proof. destruct m as [m|]; simpl; eauto. Qed.

Lemma marks_kept_trans (m1 m2 m3 : option ClashMap) :
  marks_kept m1 m2 -> marks_kept m2 m3 -> marks_kept m1 m3.
Proof.
  destruct m1 as [m1|]; simpl.
  - intros (m2' & -> & H12). simpl. intros (m3' & -> & H23).
    exists m3'. split; [reflexivity|]. auto.
  - intros ->. simpl. auto.
Qed.

Lemma marks_kept_insert (m : ClashMap) (k : string) :
  marks_kept (Some m) (Some (mark m k)).
Proof.
  simpl. exists (mark m k). split; [reflexivity|].
  intros k' Hk'.
  destruct (decide (k = k')) as [->|Hne].
  - apply marked_mark_eq.
  - rewrite marked_mark_ne by exact Hne. exact Hk'.
Qed.

Section ClashMapFacts.

Variable checkReservedWord : string -> Z -> bool -> bool -> completion.

Variable chk : Node -> option ClashMap
               -> option ClashMap * completion.

Let keeps (x : Node) : Prop := forall m, marks_kept m (chk x m).1.

Lemma check_target_keeps (x : option Node) :
  (forall e, x = Some e -> keeps e) ->
  forall m, marks_kept m (check_target chk x m).1.
Proof.
  intros H m. destruct x as [e|]; simpl.
  - apply (H e eq_refl).
  - apply marks_kept_refl.
Qed.

Lemma check_properties_keeps (props : list Node) :
  Forall (fun p => keeps p /\ forall v, value p = Some v -> keeps v) props ->
  forall m, marks_kept m (check_properties chk props m).1.
Proof.
  induction 1 as [|p rest [Hp Hv] _ IH]; intros m; simpl.
  - apply marks_kept_refl.
  - assert (H1 : marks_kept m
                   (if is_type p "ObjectProperty"
                    then check_target chk (value p) m else chk p m).1).
    { destruct (is_type p "ObjectProperty").
      - apply check_target_keeps. exact Hv.
      - apply Hp. }
    destruct (if is_type p "ObjectProperty" then _ else _) as [m1 [e|]].
    + exact H1.
    + simpl in H1. apply (marks_kept_trans _ _ _ H1). apply IH.
Qed.

Lemma check_elements_keeps (elems : list (option Node)) :
  Forall (fun e => forall x, e = Some x -> keeps x) elems ->
  forall m, marks_kept m (check_elements chk elems m).1.
Proof.
  induction 1 as [|e rest He _ IH]; intros m; simpl.
  - apply marks_kept_refl.
  - destruct e as [x|]; [|apply IH].
    pose proof (He x eq_refl m) as H1.
    destruct (chk x m) as [m1 [e|]]; [exact H1|].
    simpl in H1. apply (marks_kept_trans _ _ _ H1). apply IH.
Qed.

End ClashMapFacts.

(** X8: checkLVal and the clash map.  When no clash map is given, none
    comes back; when one is given, every key that was marked in it is
    still marked afterwards.  Both hold whether the validation returns
    or fails, and whatever the reserved-word check does. *)
Theorem checkLVal_marks_kept
    (checkReservedWord : string -> Z -> bool -> bool -> completion)
    (expr : Node) (isBinding : bool)
    (checkClashes : option ClashMap)
    (contextDescription : string) :
  marks_kept checkClashes
    (checkLVal checkReservedWord expr isBinding checkClashes
               contextDescription).1.
Proof.
  revert isBinding checkClashes contextDescription.
  induction expr as [n IH] using Node_grandchild_ind.
  intros isBinding m contextDescription.
  rewrite checkLVal_unfold.
  destruct (_ || _).
  { destruct (checkReservedWord _ _ _ _); [apply marks_kept_refl|].
    destruct m as [m|]; [|apply marks_kept_refl].
    cbv zeta. destruct (marked m _); [apply marks_kept_refl|].
    apply marks_kept_insert. }
  destruct (is_type n "MemberExpression").
  { destruct isBinding; apply marks_kept_refl. }
  destruct (is_type n "ObjectPattern").
  { destruct (properties n) as [ps|] eqn:Hps; [|apply marks_kept_refl].
    apply check_properties_keeps.
    apply List.Forall_forall. intros p Hin.
    pose proof (IH p (child_property _ _ _ Hps Hin)) as [Hp Hc].
    split.
    - intros m'. apply Hp.
    - intros v Hv m'. apply (Hc v (child_value _ _ Hv)). }
  destruct (is_type n "ArrayPattern").
  { destruct (elements n) as [es|] eqn:Hes; [|apply marks_kept_refl].
    apply check_elements_keeps.
    apply List.Forall_forall. intros e Hin x -> m'.
    apply (proj1 (IH x (child_element _ _ _ Hes Hin))). }
  destruct (is_type n "AssignmentPattern").
  { apply check_target_keeps. intros e He m'.
    apply (proj1 (IH e (child_left _ _ He))). }
  destruct (is_type n "RestElement").
  { apply check_target_keeps. intros e He m'.
    apply (proj1 (IH e (child_argument _ _ He))). }
  apply marks_kept_refl.
Qed.

(** ** What a validation that returns depends on *)

Section CheckTransfer.

Variables chk chk' : Node -> option ClashMap
                     -> option ClashMap * completion.

Let transfers (x : Node) : Prop :=
  forall m r, chk x m = (r, None) -> chk' x m = (r, None).

Lemma check_target_transfer (x : option Node) m r :
  (forall e, x = Some e -> transfers e) ->
  check_target chk x m = (r, None) -> check_target chk' x m = (r, None).
Proof.
  intros H. destruct x as [e|]; simpl; [apply (H e eq_refl)|].
  intros E. exact E.
Qed.

Lemma check_properties_transfer (props : list Node) m r :
  Forall (fun p => transfers p /\ forall v, value p = Some v -> transfers v)
         props ->
  check_properties chk props m = (r, None) ->
  check_properties chk' props m = (r, None).
Proof.
  intros HF. revert m.
  induction HF as [|p rest [Hp Hv] _ IH]; intros m H; [exact H|].
  simpl in *. destruct (is_type p "ObjectProperty").
  - destruct (check_target chk (value p) m) as [m1 [e|]] eqn:Hc;
      [discriminate H|].
    rewrite (check_target_transfer _ _ _ Hv Hc). apply IH, H.
  - destruct (chk p m) as [m1 [e|]] eqn:Hc; [discriminate H|].
    rewrite (Hp _ _ Hc). apply IH, H.
Qed.

Lemma check_elements_transfer (elems : list (option Node)) m r :
  Forall (fun e => forall x, e = Some x -> transfers x) elems ->
  check_elements chk elems m = (r, None) ->
  check_elements chk' elems m = (r, None).
Proof.
  intros HF. revert m.
  induction HF as [|e rest He _ IH]; intros m H; [exact H|].
  simpl in *. destruct e as [x|]; [|apply IH, H].
  destruct (chk x m) as [m1 [e|]] eqn:Hc; [discriminate H|].
  rewrite (He x eq_refl _ _ Hc). apply IH, H.
Qed.

End CheckTransfer.

(** X9: a validation that returns does not depend on the description,
    and what is valid as a binding target is valid as an assignment
    target: when checkLVal returns under (isBinding, description), it
    returns, with the same clash map, under any other description and
    under isBinding lowered from true to false. *)
Theorem checkLVal_success_transfers
    (checkReservedWord : string -> Z -> bool -> bool -> completion)
    (expr : Node) (isBinding isBinding' : bool)
    (checkClashes result : option ClashMap)
    (contextDescription description' : string) :
  (isBinding' = true -> isBinding = true) ->
  checkLVal checkReservedWord expr isBinding checkClashes contextDescription
    = (result, None) ->
  checkLVal checkReservedWord expr isBinding' checkClashes description'
    = (result, None).
Proof.
  intros Hb.
  revert checkClashes result contextDescription description'.
  induction expr as [n IH] using Node_grandchild_ind.
  intros m r description description' H.
  rewrite checkLVal_unfold in *.
  destruct (_ || _); [exact H|].
  destruct (is_type n "MemberExpression").
  { destruct isBinding; [discriminate H|].
    destruct isBinding'; [discriminate (Hb eq_refl)|]. exact H. }
  destruct (is_type n "ObjectPattern").
  { destruct (properties n) as [ps|] eqn:Hps; [|discriminate H].
    revert H. apply check_properties_transfer.
    apply List.Forall_forall. intros p Hin.
    pose proof (IH p (child_property _ _ _ Hps Hin)) as [Hp Hc].
    split.
    - intros m' r'. apply Hp.
    - intros v Hv m' r'. apply (Hc v (child_value _ _ Hv)). }
  destruct (is_type n "ArrayPattern").
  { destruct (elements n) as [es|] eqn:Hes; [|discriminate H].
    revert H. apply check_elements_transfer.
    apply List.Forall_forall. intros e Hin x -> m' r'.
    apply (proj1 (IH x (child_element _ _ _ Hes Hin))). }
  destruct (is_type n "AssignmentPattern").
  { revert H. apply check_target_transfer. intros e He m' r'.
    apply (proj1 (IH e (child_left _ _ He))). }
  destruct (is_type n "RestElement").
  { revert H. apply check_target_transfer. intros e He m' r'.
    apply (proj1 (IH e (child_argument _ _ He))). }
  discriminate H.
Qed.

Lemma checkLVal_success_transfers_witness :
  let crw := fun (_ : string) (_ : Z) (_ _ : bool) => @None error in
  let pattern :=
    mkNode "ArrayPattern" 0 8 "" None None None None None None None None
           (Some [Some (Identifier 1 2 "a"); None;
                  Some (RestElement 4 8 (Identifier 7 8 "b"))]) in
  let marks := mark (mark null_prototype_map "_a") "_b" in
  checkLVal crw pattern true (Some null_prototype_map)
            "function parameter list"
    = (Some marks, None)
  /\ checkLVal crw pattern false (Some null_prototype_map) ""
    = (Some marks, None).
Proof.
  intros crw pattern marks. split; [reflexivity|].
  apply (checkLVal_success_transfers crw pattern true false
           (Some null_prototype_map)
           (Some marks) "function parameter list" "").
  - intros H. discriminate H.
  - reflexivity.
Defined.

(** ** Nodes that checkLVal rejects *)

(** X10: a node whose discriminant has no arm in checkLVal (an
    expression that was not converted: ObjectExpression,
    ArrayExpression, SpreadElement, AssignmentExpression; a literal; an
    ObjectProperty or ObjectMethod standing alone) is rejected at its
    own start, the clash map left as it was.  The message starts with
    ["Binding invalid"] for a binding and ["Invalid"] otherwise. *)
Theorem checkLVal_rejects
    (checkReservedWord : string -> Z -> bool -> bool -> completion)
    (expr : Node) (isBinding : bool)
    (checkClashes : option ClashMap)
    (contextDescription : string) :
  ~ In (type expr) checkLVal_discriminants ->
  checkLVal checkReservedWord expr isBinding checkClashes contextDescription
  = (checkClashes,
     Some (Raise (start expr)
             ((if isBinding then "Binding invalid" else "Invalid")
                +:+ " left-hand side"
                +:+ (if String.eqb contextDescription "" then "expression"
                     else " in " +:+ contextDescription)))).
Proof.
  intros H. rewrite checkLVal_unfold.
  apply not_in_discriminants in H. simpl in H.
  rewrite !andb_true_iff, !negb_true_iff in H.
  unfold is_type.
  destruct H as (-> & -> & -> & -> & -> & -> & -> & _).
  reflexivity.
Qed.

Lemma checkLVal_rejects_witness :
  checkLVal (fun _ _ _ _ => None) (ArrayExpression 2 5 []) true None
            "variable declaration"
  = (None,
     Some (Raise 2 "Binding invalid left-hand side in variable declaration")).
Proof.
  apply (checkLVal_rejects (fun _ _ _ _ => None) (ArrayExpression 2 5 [])
           true None "variable declaration").
  simpl. intuition discriminate.
Defined.

(** ** Duplicate names in one array pattern *)

Section ArrayPatternNames.

Variable checkReservedWord : string -> Z -> bool -> bool -> completion.
Variable isBinding : bool.

Let chk := fun (e : Node) (m : option ClashMap) =>
  checkLVal checkReservedWord e isBinding m "array destructuring pattern".

Let accepted_identifier (x : Node) : Prop :=
  type x = "Identifier" /\
  checkReservedWord (name x) (start x) false true = None.

Lemma checkLVal_accepted_identifier (x : Node) (m : ClashMap)
    (contextDescription : string) :
  accepted_identifier x ->
  checkLVal checkReservedWord x isBinding (Some m) contextDescription
  = if marked m ("_" +:+ name x)
    then (Some m, raise (start x) "Argument name clash in strict mode")
    else (Some (mark m ("_" +:+ name x)), None).
Proof.
  intros [Ht Hr]. rewrite checkLVal_unfold. known_type Ht. rewrite Hr.
  reflexivity.
Qed.

Lemma check_elements_marks (es : list (option Node)) (m : ClashMap) :
  (forall x, Some x ∈ es -> accepted_identifier x) ->
  NoDup (element_names es) ->
  (forall y, y ∈ element_names es -> marked m ("_" +:+ y) = false) ->
  check_elements chk es (Some m)
  = (Some (mark_all (element_names es) m), None).
Proof.
  revert m. induction es as [|[x|] rest IH]; intros m Hid Hnd Hm.
  - reflexivity.
  - simpl. unfold chk at 1.
    rewrite (checkLVal_accepted_identifier x m) by (apply Hid; left).
    change (element_names (Some x :: rest))
      with (name x :: element_names rest) in *.
    rewrite (Hm (name x)) by left.
    apply NoDup_cons in Hnd as [Hx Hnd].
    apply IH.
    + intros y Hy. apply Hid. right. exact Hy.
    + exact Hnd.
    + intros y Hy. rewrite marked_mark_ne.
      * apply Hm. right. exact Hy.
      * intros E. apply clash_key_inj in E. subst y. contradiction.
  - simpl. apply IH.
    + intros y Hy. apply Hid. right. exact Hy.
    + exact Hnd.
    + exact Hm.
Qed.

Lemma check_elements_marked_fails (es : list (option Node))
    (m : ClashMap) (y : string) :
  (forall x, Some x ∈ es -> accepted_identifier x) ->
  y ∈ element_names es -> marked m ("_" +:+ y) = true ->
  exists m' pos,
    check_elements chk es (Some m)
    = (Some m', raise pos "Argument name clash in strict mode").
Proof.
  revert m. induction es as [|[x|] rest IH]; intros m Hid Hy Hm.
  - inversion Hy.
  - simpl. unfold chk at 1.
    rewrite (checkLVal_accepted_identifier x m) by (apply Hid; left).
    destruct (marked m ("_" +:+ name x)) eqn:Hx; [eauto|].
    change (element_names (Some x :: rest))
      with (name x :: element_names rest) in Hy.
    apply elem_of_cons in Hy as [->|Hy]; [congruence|].
    apply IH.
    + intros z Hz. apply Hid. right. exact Hz.
    + exact Hy.
    + destruct (marks_kept_insert m ("_" +:+ name x)) as (m' & [= <-] & Hk).
      apply Hk, Hm.
  - simpl. apply IH; [|exact Hy|exact Hm].
    intros z Hz. apply Hid. right. exact Hz.
Qed.

Lemma check_elements_duplicate_fails (es : list (option Node))
    (m : ClashMap) :
  (forall x, Some x ∈ es -> accepted_identifier x) ->
  ~ NoDup (element_names es) ->
  exists m' pos,
    check_elements chk es (Some m)
    = (Some m', raise pos "Argument name clash in strict mode").
Proof.
  revert m. induction es as [|[x|] rest IH]; intros m Hid Hnd.
  - destruct Hnd. constructor.
  - assert (Hrest : forall z, Some z ∈ rest -> accepted_identifier z)
      by (intros z Hz; apply Hid; right; exact Hz).
    simpl. unfold chk at 1.
    rewrite (checkLVal_accepted_identifier x m) by (apply Hid; left).
    destruct (marked m ("_" +:+ name x)) eqn:Hx; [eauto|].
    destruct (decide (name x ∈ element_names rest)) as [Hin|Hout].
    + apply (check_elements_marked_fails rest _ (name x) Hrest Hin).
      apply marked_mark_eq.
    + apply IH; [exact Hrest|].
      intros Hnd'. apply Hnd.
      change (element_names (Some x :: rest))
        with (name x :: element_names rest).
      apply NoDup_cons. split; assumption.
  - simpl. apply IH; [|exact Hnd].
    intros z Hz. apply Hid. right. exact Hz.
Qed.

(** X11: an ArrayPattern all of whose entries are holes or Identifier
    nodes accepted by the reserved-word check, validated with a clash
    map.  When the names are pairwise different and the key of none is
    marked in the map or inherited by it, checkLVal returns and has
    marked exactly their keys; when a name occurs twice, it fails with
    the duplicate-binding error, whatever the map. *)
Theorem checkLVal_array_pattern_names
    (expr : Node) (es : list (option Node)) (m : ClashMap)
    (contextDescription : string) :
  type expr = "ArrayPattern" ->
  elements expr = Some es ->
  (forall x, Some x ∈ es ->
     type x = "Identifier" /\
     checkReservedWord (name x) (start x) false true = None) ->
  let result :=
    checkLVal checkReservedWord expr isBinding (Some m) contextDescription in
  (NoDup (element_names es) ->
   (forall y, y ∈ element_names es -> marked m ("_" +:+ y) = false) ->
   result = (Some (mark_all (element_names es) m), None))
  /\ (~ NoDup (element_names es) ->
      exists m' pos,
        result = (Some m', raise pos "Argument name clash in strict mode")).
Proof.
  intros Ht He Hid result. subst result.
  rewrite checkLVal_unfold. known_type Ht. rewrite He. split.
  - intros Hnd Hm. apply check_elements_marks; assumption.
  - intros Hnd. apply check_elements_duplicate_fails; assumption.
Qed.

End ArrayPatternNames.

Lemma checkLVal_array_pattern_names_witness :
  let crw := fun (_ : string) (_ : Z) (_ _ : bool) => @None error in
  let pattern (second : string) :=
    mkNode "ArrayPattern" 0 8 "" None None None None None None None None
           (Some [Some (Identifier 1 2 "a"); None;
                  Some (Identifier 6 7 second)]) in
  checkLVal crw (pattern "b") true (Some plain_object_map)
            "function parameter list"
    = (Some (mark (mark plain_object_map "_a") "_b"), None)
  /\ exists m' pos,
      checkLVal crw (pattern "a") true (Some plain_object_map)
                "function parameter list"
      = (Some m', Some (Raise pos "Argument name clash in strict mode")).
Proof.
  intros crw pattern.
  assert (Hid : forall second x,
             Some x ∈ [Some (Identifier 1 2 "a"); None;
                       Some (Identifier 6 7 second)] ->
             type x = "Identifier" /\ crw (name x) (start x) false true = None).
  { intros second x Hx. split; [|reflexivity].
    repeat (apply elem_of_cons in Hx as [Hx|Hx];
            [try discriminate Hx; injection Hx as ->; reflexivity|]).
    inversion Hx. }
  split.
  - apply (proj1 (checkLVal_array_pattern_names crw true (pattern "b") _
                    plain_object_map
                    "function parameter list" eq_refl eq_refl (Hid "b"))).
    + simpl. apply NoDup_cons. split.
      * intros H. apply list_elem_of_singleton in H. discriminate H.
      * apply NoDup_singleton.
    + intros y Hy. simpl in Hy.
      repeat (apply elem_of_cons in Hy as [->|Hy]; [reflexivity|]).
      inversion Hy.
  - apply (proj2 (checkLVal_array_pattern_names crw true (pattern "a") _
                    plain_object_map
                    "function parameter list" eq_refl eq_refl (Hid "a"))).
    simpl. intros H. apply NoDup_cons in H as [H _].
    apply H. left.
Defined.

(** ** Lists without spread or rest *)

Lemma toAssignableList_all_converted
    (exprList exprList' : list (option Node)) (isBinding : bool)
    (contextDescription : string) :
  Forall2 (element_converted isBinding contextDescription)
          exprList exprList' ->
  (forall x, last exprList = Some (Some x) -> type x <> "RestElement") ->
  toAssignableList exprList isBinding contextDescription = (exprList', None).
Proof.
  intros HF Hlast.
  destruct exprList as [|e pre _] using rev_ind.
  - inversion HF. reflexivity.
  - rewrite toAssignableList_snoc.
    assert (Hkeep : convert_last_elt
                      (fun n => toAssignable_node n isBinding
                                  contextDescription) e
                    = (e, None, false)).
    { destruct e as [x|]; [|reflexivity]. unfold convert_last_elt.
      specialize (Hlast x (last_snoc _ _)). apply is_type_false in Hlast.
      rewrite Hlast.
      assert (Hs : type x <> "SpreadElement").
      { apply Forall2_app_inv_l in HF as (l1 & l2 & _ & H2 & _).
        inversion H2 as [|? ? ? ? [Hs _] _]; subst. apply (Hs x eq_refl). }
      apply is_type_false in Hs. rewrite Hs. reflexivity. }
    rewrite Hkeep.
    rewrite <- (app_nil_r (pre ++ [e])).
    replace (S (length pre)) with (length (pre ++ [e]) + 0)%nat
      by (rewrite length_app; simpl; lia).
    rewrite (convert_loop_app _ _ _ _ _ _ HF).
    rewrite convert_loop_0, app_nil_r. reflexivity.
Qed.

(** X12: a list whose last entry is not a RestElement and whose entries
    are holes and nodes, none a SpreadElement, on each of which
    toAssignable returns: toAssignableList returns the list of the
    converted entries, in order, holes kept. *)
Theorem toAssignableList_elementwise
    (exprList exprList' : list (option Node)) (isBinding : bool)
    (contextDescription : string) :
  Forall2 (element_converted isBinding contextDescription)
          exprList exprList' ->
  (forall x, last exprList = Some (Some x) -> type x <> "RestElement") ->
  toAssignableList exprList isBinding contextDescription = (exprList', None).
Proof. apply toAssignableList_all_converted. Qed.

Lemma toAssignableList_elementwise_witness :
  let a := Identifier 1 2 "a" in
  let member := MemberExpression 7 10 in
  let array' := mkNode "ArrayPattern" 4 6 "" None None None None None None
                       None None (Some []) in
  toAssignableList [Some a; Some (ArrayExpression 4 6 []); None; Some member]
                   false "x"
  = ([Some a; Some array'; None; Some member], None).
Proof.
  intros a member array'.
  apply (toAssignableList_elementwise
           [Some a; Some (ArrayExpression 4 6 []); None; Some member]
           [Some a; Some array'; None; Some member] false "x").
  - repeat constructor; intros n Hn; try injection Hn as <-; discriminate.
  - intros x Hx. injection Hx as <-. discriminate.
Defined.

(** ** Conversion, then validation *)




Section Composition.

Variable checkReservedWord : string -> Z -> bool -> bool -> completion.
Variable isBinding : bool.

Hypothesis accepts :
  forall word pos, checkReservedWord word pos false true = None.






End Composition.



(** ** The binding parser *)

(** Splits the hypothesis [H], which says that a sequence of parser steps
    returned, into what each step returned. *)
Ltac parser_steps H :=
  unfold bind, gets, ret in H;
  repeat match type of H with
         | context [match ?m with
                    | Returned _ _ => _
                    | Threw _ => _
                    | OutOfFuel => _
                    end] =>
           destruct m eqn:?; try discriminate H
         | context [if ?b then _ else _] => destruct b eqn:?
         end.

Section BindingParserFacts.

Context {P Pos : Type}.
Variable state : P -> State.State.
Variable state_start : P -> Z.
Variable next : parser P unit.
Variable eat : tt.TokenType -> parser P bool.
Variable expect : tt.TokenType -> parser P unit.
Variable expectLenient : tt.TokenType -> parser P unit.
Variable unexpected_here : P -> error.
Variable startNode : P -> Node.
Variable startNodeAt : Z -> P -> Node.
Variable finishNode : Node -> string -> parser P Node.
Variable parseIdentifier : bool -> parser P Node.
Variable parseMaybeAssign : option bool -> option Pos -> parser P Node.
Variable parseObj : bool -> parser P Node.
Variable parseDecorator : parser P Node.
Variable set_decorators : Node -> list Node -> Node.

Local Abbreviation binding_atom :=
  (parseBindingAtom state state_start next eat expect expectLenient
     unexpected_here startNode startNodeAt finishNode parseIdentifier
     parseMaybeAssign parseObj parseDecorator set_decorators).
Local Abbreviation maybe_default :=
  (parseMaybeDefault state state_start next eat expect expectLenient
     unexpected_here startNode startNodeAt finishNode parseIdentifier
     parseMaybeAssign parseObj parseDecorator set_decorators).
Local Abbreviation rest_element :=
  (parseRest state state_start next eat expect expectLenient
     unexpected_here startNode startNodeAt finishNode parseIdentifier
     parseMaybeAssign parseObj parseDecorator set_decorators).
Local Abbreviation binding_list_from :=
  (parseBindingList_from state state_start next eat expect expectLenient
     unexpected_here startNode startNodeAt finishNode parseIdentifier
     parseMaybeAssign parseObj parseDecorator set_decorators).
Local Abbreviation binding_list :=
  (parseBindingList state state_start next eat expect expectLenient
     unexpected_here startNode startNodeAt finishNode parseIdentifier
     parseMaybeAssign parseObj parseDecorator set_decorators).

Lemma parseBindingAtom_unfold (fuel : nat) (p : P) :
  binding_atom (S fuel) p =
  match State.type (state p) with
  | tt._yield | tt.name =>
    parseBindingIdentifier (fun liberal _ => parseIdentifier liberal p)
                           (state p)
  | tt.bracketL =>
    (node <- gets startNode ;;
     _ <- next ;;
     elts <- binding_list fuel tt.bracketR true ;;
     finishNode (set_elements node (Some elts)) "ArrayPattern")%parser p
  | tt.braceL => parseObj true p
  | _ => Threw (unexpected_here p)
  end.
Proof. reflexivity. Qed.

Lemma parseRest_unfold (fuel : nat) :
  rest_element (S fuel) =
  (node <- gets startNode ;;
   _ <- next ;;
   arg <- binding_atom fuel ;;
   finishNode (set_argument node (Some arg)) "RestElement")%parser.
Proof. reflexivity. Qed.

Lemma parseMaybeDefault_unfold (fuel : nat) (startPos : option Z)
    (left : option Node) :
  maybe_default (S fuel) startPos left =
  (startPos' <- gets (fun p => or_start startPos (state_start p)) ;;
   left' <- match left with
            | Some l => ret l
            | None => binding_atom fuel
            end ;;
   isDefault <- eat tt.eq ;;
   if negb isDefault then ret left'
   else
     node <- gets (startNodeAt startPos') ;;
     r <- parseMaybeAssign None None ;;
     finishNode (set_right (set_left node (Some left')) (Some r))
                "AssignmentPattern")%parser.
Proof. reflexivity. Qed.

Lemma parseBindingList_from_unfold (fuel : nat) (close : tt.TokenType)
    (allowEmpty : bool) (elts : list (option Node)) (first : bool) :
  binding_list_from (S fuel) close allowEmpty elts first =
  (closed <- eat close ;;
   if closed then ret elts
   else
     _ <- (if first then ret tt else expectLenient tt.comma) ;;
     atComma <- gets (fun p => match_ (state p) tt.comma) ;;
     if allowEmpty && atComma then
       binding_list_from fuel close allowEmpty (elts ++ [None]) false
     else
       closed' <- eat close ;;
       if closed' then ret elts
       else
         atEllipsis <- gets (fun p => match_ (state p) tt.ellipsis) ;;
         if atEllipsis then
           r <- rest_element fuel ;;
           _ <- expect close ;;
           ret (elts ++ [Some (parseAssignableListItemTypes r)])
         else
           decorators <- parseDecorators state parseDecorator fuel [] ;;
           left <- maybe_default fuel None None ;;
           let left' := match decorators with
                        | [] => left
                        | _ :: _ => set_decorators left decorators
                        end in
           item <- maybe_default fuel (Some (start left')) (Some left') ;;
           binding_list_from fuel close allowEmpty (elts ++ [Some item])
                             false)%parser.
Proof. reflexivity. Qed.

Lemma parseBindingList_from_no_holes (fuel : nat) (close : tt.TokenType)
    (elts elts' : list (option Node)) (first : bool) (p p' : P) :
  ~ In None elts ->
  binding_list_from fuel close false elts first p = Returned elts' p' ->
  ~ In None elts'.
Proof.
  revert elts first p.
  induction fuel as [|fuel IH]; intros elts first p Helts H;
    [discriminate H|].
  rewrite parseBindingList_from_unfold in H. cbn [andb] in H.
  parser_steps H;
    try (injection H as <- _; exact Helts);
    try (injection H as <- _; rewrite in_app_iff; simpl;
         intuition discriminate);
    try (apply IH in H; [exact H|]; rewrite in_app_iff; simpl;
         intuition discriminate).
Qed.

(** X14: without [allowEmpty], parseBindingList gives no holes: every
    entry of a list it returns is a node, whatever the cursor and the
    other parsers do. *)
Theorem parseBindingList_no_holes (fuel : nat) (close : tt.TokenType)
    (elts : list (option Node)) (p p' : P) :
  binding_list fuel close false p = Returned elts p' ->
  ~ In None elts.
Proof.
  apply parseBindingList_from_no_holes. intros [].
Qed.

(** What the other files are relied on for, as to discriminants:
    [finishNode] stamps the discriminant it is given, the identifier and
    object parsers do not build a RestElement, and assigning the
    decorators leaves the discriminant alone. *)
Hypothesis finishNode_type : forall n ty p n' p',
  finishNode n ty p = Returned n' p' -> type n' = ty.
Hypothesis parseIdentifier_not_rest : forall liberal p n p',
  parseIdentifier liberal p = Returned n p' -> type n <> "RestElement".
Hypothesis parseObj_not_rest : forall isPattern p n p',
  parseObj isPattern p = Returned n p' -> type n <> "RestElement".
Hypothesis set_decorators_type : forall n decorators,
  type (set_decorators n decorators) = type n.

Lemma parseBindingAtom_not_rest (fuel : nat) (p p' : P) (n : Node) :
  binding_atom fuel p = Returned n p' -> type n <> "RestElement".
Proof.
  destruct fuel as [|fuel]; intros H; [discriminate H|].
  rewrite parseBindingAtom_unfold in H.
  destruct (State.type (state p)); try discriminate H.
  - apply (parseIdentifier_not_rest _ _ _ _ H).
  - apply (parseIdentifier_not_rest _ _ _ _ H).
  - parser_steps H. apply finishNode_type in H. rewrite H. discriminate.
  - apply (parseObj_not_rest _ _ _ _ H).
Qed.

Lemma parseMaybeDefault_not_rest (fuel : nat) (startPos : option Z)
    (left : option Node) (p p' : P) (n : Node) :
  (forall l, left = Some l -> type l <> "RestElement") ->
  maybe_default fuel startPos left p = Returned n p' ->
  type n <> "RestElement".
Proof.
  destruct fuel as [|fuel]; intros Hl H; [discriminate H|].
  rewrite parseMaybeDefault_unfold in H.
  destruct left as [l|].
  - specialize (Hl l eq_refl). parser_steps H.
    + injection H as <- _. exact Hl.
    + apply finishNode_type in H. rewrite H. discriminate.
  - parser_steps H.
    + injection H as <- _.
      eapply parseBindingAtom_not_rest. eassumption.
    + apply finishNode_type in H. rewrite H. discriminate.
Qed.

Lemma parseRest_is_rest (fuel : nat) (p p' : P) (n : Node) :
  rest_element fuel p = Returned n p' -> type n = "RestElement".
Proof.
  destruct fuel as [|fuel]; intros H; [discriminate H|].
  rewrite parseRest_unfold in H. parser_steps H.
  apply (finishNode_type _ _ _ _ _ H).
Qed.

Lemma parseBindingList_from_rest (fuel : nat) (close : tt.TokenType)
    (allowEmpty : bool) (elts elts' : list (option Node)) (first : bool)
    (p p' : P) :
  (forall x, In (Some x) elts -> type x <> "RestElement") ->
  binding_list_from fuel close allowEmpty elts first p = Returned elts' p' ->
  (forall x, In (Some x) elts' -> type x <> "RestElement")
  \/ exists pre r,
       elts' = pre ++ [Some r]
       /\ (forall x, In (Some x) pre -> type x <> "RestElement")
       /\ type r = "RestElement".
Proof.
  revert elts first p.
  induction fuel as [|fuel IH]; intros elts first p Helts H;
    [discriminate H|].
  assert (Hsnoc : forall item,
             type item <> "RestElement" ->
             forall x, In (Some x) (elts ++ [Some item]) ->
                       type x <> "RestElement").
  { intros item Hitem x Hx. apply in_app_iff in Hx as [Hx|[Hx|[]]].
    - apply Helts, Hx.
    - injection Hx as <-. exact Hitem. }
  assert (Hhole : forall x, In (Some x) (elts ++ [None]) ->
                            type x <> "RestElement").
  { intros x Hx. apply in_app_iff in Hx as [Hx|[Hx|[]]].
    - apply Helts, Hx.
    - discriminate Hx. }
  rewrite parseBindingList_from_unfold in H.
  parser_steps H;
    try (injection H as <- _; left; exact Helts);
    try (apply IH in H; [exact H|exact Hhole]);
    try (injection H as <- _; right; eexists _, _;
         split; [reflexivity|]; split; [exact Helts|];
         unfold parseAssignableListItemTypes;
         eapply parseRest_is_rest; eassumption);
    idtac.
  apply IH in H; [exact H|]. apply Hsnoc.
  match goal with
  | H3 : maybe_default fuel None None _ = Returned ?left _,
    H4 : maybe_default fuel (Some _) (Some _) _ = Returned ?item _
    |- type ?item <> _ =>
    apply (parseMaybeDefault_not_rest _ _ _ _ _ _) in H3;
      [|intros l [=]];
    apply (parseMaybeDefault_not_rest _ _ _ _ _ _) in H4; [exact H4|];
    intros l [= <-]
  end.
  match goal with
  | |- type (match ?ds with [] => _ | _ :: _ => _ end) <> _ =>
    destruct ds; [|rewrite set_decorators_type]; assumption
  end.
Qed.

(** X15: in a list that parseBindingList returns, a RestElement can only
    be the last entry, provided [finishNode] stamps the discriminant it
    is given, the identifier and object parsers build no RestElement and
    assigning decorators keeps the discriminant. *)
Theorem parseBindingList_rest_last (fuel : nat) (close : tt.TokenType)
    (allowEmpty : bool) (elts : list (option Node)) (p p' : P)
    (pre post : list (option Node)) (x : Node) :
  binding_list fuel close allowEmpty p = Returned elts p' ->
  elts = pre ++ Some x :: post ->
  type x = "RestElement" ->
  post = [].
Proof.
  intros H -> Hx.
  apply parseBindingList_from_rest in H; [|intros y []].
  destruct H as [H|(pre0 & r & Heq & Hpre & _)].
  - destruct (H x); [|exact Hx]. apply in_app_iff. right. left. reflexivity.
  - destruct post as [|e post _] using rev_ind; [reflexivity|].
    exfalso. apply (Hpre x); [|exact Hx].
    change (pre ++ Some x :: post ++ [e])
      with (pre ++ (Some x :: post) ++ [e]) in Heq.
    rewrite app_assoc in Heq. apply app_inj_tail in Heq as [<- _].
    apply in_app_iff. right. left. reflexivity.
Qed.

(** What the identifier parser and the object parser, in pattern mode,
    are relied on for here. *)
Hypothesis parseIdentifier_identifier : forall liberal p n p',
  parseIdentifier liberal p = Returned n p' -> type n = "Identifier".
Hypothesis parseObj_pattern : forall p n p',
  parseObj true p = Returned n p' -> type n = "ObjectPattern".

Lemma parseBindingAtom_pattern (fuel : nat) (p p' : P) (n : Node) :
  binding_atom fuel p = Returned n p' -> already_pattern n = true.
Proof.
  destruct fuel as [|fuel]; intros H; [discriminate H|].
  rewrite parseBindingAtom_unfold in H.
  assert (Hpat : In (type n) ["Identifier"; "ObjectPattern"; "ArrayPattern"]
                 -> already_pattern n = true).
  { simpl. intros [E|[E|[E|[]]]]; symmetry in E; known_type E; reflexivity. }
  apply Hpat. simpl.
  destruct (State.type (state p)); try discriminate H.
  - left. symmetry. apply (parseIdentifier_identifier _ _ _ _ H).
  - left. symmetry. apply (parseIdentifier_identifier _ _ _ _ H).
  - parser_steps H. apply finishNode_type in H. auto.
  - right. left. symmetry. apply (parseObj_pattern _ _ _ H).
Qed.

(** X16: a pattern parsed directly needs no conversion.  What
    parseBindingAtom returns, and what parseMaybeDefault returns when it
    parses the left side itself, toAssignable gives back unchanged,
    whatever isBinding is, provided [finishNode] stamps the discriminant
    it is given, the identifier parser builds an Identifier and the
    object parser, in pattern mode, an ObjectPattern. *)
Theorem parsed_pattern_needs_no_conversion (fuel : nat) (p p' : P)
    (n : Node) (startPos : option Z) (isBinding : bool)
    (contextDescription : string) :
  binding_atom fuel p = Returned n p'
  \/ maybe_default fuel startPos None p = Returned n p' ->
  toAssignable_node n isBinding contextDescription = (n, None).
Proof.
  intros H.
  assert (Hpat : already_pattern n = true).
  { destruct H as [H|H]; [apply (parseBindingAtom_pattern _ _ _ _ H)|].
    destruct fuel as [|fuel]; [discriminate H|].
    rewrite parseMaybeDefault_unfold in H. parser_steps H.
    - injection H as <- _. eapply parseBindingAtom_pattern. eassumption.
    - apply finishNode_type in H. known_type H. reflexivity. }
  rewrite toAssignable_node_unfold, Hpat. reflexivity.
Qed.

End BindingParserFacts.

Lemma parseBindingList_no_holes_witness :
  let input := [(tt.name, "a"); (tt.comma, ","); (tt.name, "b");
                (tt.bracketR, "]")] in
  let elts := [Some (Identifier 0 0 "a"); Some (Identifier 0 0 "b")] in
  tokens_parseBindingList 10 tt.bracketR false input = Returned elts []
  /\ ~ In None elts.
Proof.
  intros input elts. split; [reflexivity|].
  apply (parseBindingList_no_holes (Pos := unit)
           tokens_state (fun _ => 0) tokens_next tokens_eat tokens_expect
           tokens_expectLenient (fun _ => Unexpected 0)
           (fun _ => node_of "" 0 0) (fun pos _ => node_of "" pos 0)
           tokens_finishNode tokens_parseIdentifier
           (fun _ _ => tokens_parseIdentifier false)
           (fun _ _ => Threw (Unexpected 0)) (fun _ => Threw (Unexpected 0))
           (fun n _ => n)
           10 tt.bracketR elts input []).
  reflexivity.
Defined.

Lemma parseBindingList_rest_last_witness :
  let input := [(tt.name, "a"); (tt.comma, ","); (tt.comma, ",");
                (tt.ellipsis, "..."); (tt.name, "b"); (tt.bracketR, "]")] in
  let rest := RestElement 0 0 (Identifier 0 0 "b") in
  let elts := [Some (Identifier 0 0 "a"); None; Some rest] in
  tokens_parseBindingList 10 tt.bracketR true input = Returned elts []
  /\ elts = [Some (Identifier 0 0 "a"); None] ++ Some rest :: []
  /\ type rest = "RestElement".
Proof.
  intros input rest elts. split; [reflexivity|]. split; [reflexivity|].
  assert (H : @nil (option Node) = []); [|reflexivity].
  apply (parseBindingList_rest_last (Pos := unit)
           tokens_state (fun _ => 0) tokens_next tokens_eat tokens_expect
           tokens_expectLenient (fun _ => Unexpected 0)
           (fun _ => node_of "" 0 0) (fun pos _ => node_of "" pos 0)
           tokens_finishNode tokens_parseIdentifier
           (fun _ _ => tokens_parseIdentifier false)
           (fun _ _ => Threw (Unexpected 0)) (fun _ => Threw (Unexpected 0))
           (fun n _ => n)
           ltac:(intros n ty p n' p' [= <- _]; reflexivity)
           ltac:(intros liberal [|[[] v] r] n p' E; simpl in E;
                 try discriminate E;
                 [destruct liberal; [|discriminate E]|];
                 injection E as <- _; discriminate)
           ltac:(intros isPattern p n p' E; discriminate E)
           ltac:(intros n decorators; reflexivity)
           10 tt.bracketR true elts input []
           [Some (Identifier 0 0 "a"); None] [] rest);
    reflexivity.
Defined.

Lemma parsed_pattern_needs_no_conversion_witness :
  let input := [(tt.bracketL, "["); (tt.name, "a"); (tt.comma, ",");
                (tt.ellipsis, "..."); (tt.name, "b"); (tt.bracketR, "]")] in
  let pattern :=
    mkNode "ArrayPattern" 0 0 "" None None None None None None None None
           (Some [Some (Identifier 0 0 "a");
                  Some (RestElement 0 0 (Identifier 0 0 "b"))]) in
  toAssignable_node pattern true "function parameter list" = (pattern, None).
Proof.
  intros input pattern.
  apply (parsed_pattern_needs_no_conversion (Pos := unit)
           tokens_state (fun _ => 0) tokens_next tokens_eat tokens_expect
           tokens_expectLenient (fun _ => Unexpected 0)
           (fun _ => node_of "" 0 0) (fun pos _ => node_of "" pos 0)
           tokens_finishNode tokens_parseIdentifier
           (fun _ _ => tokens_parseIdentifier false)
           (fun _ _ => Threw (Unexpected 0)) (fun _ => Threw (Unexpected 0))
           (fun n _ => n)
           ltac:(intros n ty p n' p' [= <- _]; reflexivity)
           ltac:(intros liberal [|[[] v] r] n p' E; simpl in E;
                 try discriminate E;
                 [destruct liberal; [|discriminate E]|];
                 injection E as <- _; reflexivity)
           ltac:(intros p n p' E; discriminate E)
           10 input [] pattern None true "function parameter list").
  left. reflexivity.
Defined.
